(** * PyShellX: a shallow embedding of [PyShellX.py] and its specification

    The development follows the source file top-down:

    - [PyStr]: the handful of Python string primitives the shell relies on
      ([str.strip], [str.join], truthiness of optional strings);
    - [Shlex]: the standard library tokenizer [shlex.split(s, posix=True)]
      that [parse_input] delegates to, transcribed from [shlex.read_token];
    - [Shell]: the functions of [PyShellX.py] themselves, written in a small
      state-and-exception monad over an explicit session state and a record
      of operating-system collaborators.

    Strings are sequences of 8-bit characters (code points 0..255). *)

From Stdlib Require Import String Ascii List Bool Arith Lia.
Import ListNotations.
Open Scope list_scope.
Open Scope string_scope.

(** ** Python string primitives *)

Module PyStr.

(** The newline written by [print] and by the explicit ["\n"] literals. *)
Definition nl : string := String "010" "".

(** [c in s] for a one-character [c]. *)
Fixpoint char_in (c : ascii) (s : string) : bool :=
  match s with
  | EmptyString => false
  | String d s' => Ascii.eqb c d || char_in c s'
  end.

(** [str.isspace] on one character, restricted to code points below 256:
    TAB, LF, VT, FF, CR, FS, GS, RS, US, space, NEL and NBSP. *)
Definition isspace (c : ascii) : bool :=
  let n := nat_of_ascii c in
  (((9 <=? n) && (n <=? 13)) || ((28 <=? n) && (n <=? 32))
   || (n =? 133) || (n =? 160))%nat.

Fixpoint lstrip (s : string) : string :=
  match s with
  | EmptyString => EmptyString
  | String c s' => if isspace c then lstrip s' else s
  end.

Fixpoint rstrip (s : string) : string :=
  match s with
  | EmptyString => EmptyString
  | String c s' =>
      match rstrip s' with
      | EmptyString => if isspace c then EmptyString else String c EmptyString
      | r => String c r
      end
  end.

(** [s.strip()] *)
Definition strip (s : string) : string := rstrip (lstrip s).

(** [sep.join(l)] *)
Definition join (sep : string) (l : list string) : string :=
  String.concat sep l.

(** Truthiness of a value that is either [None] or a [str]:
    [None] and the empty string are false. *)
Definition truthy (o : option string) : bool :=
  match o with
  | None => false
  | Some s => negb (s =? "")
  end.

(** [token += c] *)
Definition snoc (s : string) (c : ascii) : string := s ++ String c "".

End PyStr.

(** ** The tokenizer: [shlex.split(s, posix=True)]

    [shlex.split] builds a lexer with [posix = True], sets
    [whitespace_split = True] and [commenters = ''], and returns
    [list(lex)].  [punctuation_chars] is empty, no [source] inclusion is
    configured and nothing is ever pushed back, so [get_token] is
    [read_token] and iteration stops at the first [None] token. *)

Module Shlex.
Import PyStr.

Definition whitespace : string :=
  String " " (String "009" (String "013" (String "010" ""))).
Definition quotes : string := String "'" (String "034" "").
Definition escape : string := String "092" "".
Definition escapedquotes : string := String "034" "".

(** The lexer's [state] attribute.  Python stores a character there:
    [' '] (between tokens), ['a'] (inside a word), the opening quote
    character, the escape character, or [None] after end of input.  The
    local [escapedstate] ranges over the same values. *)
Inductive lstate :=
| Sspace                 (* ' ' *)
| Sword                  (* 'a' *)
| Squote (q : ascii)     (* a character of [quotes] *)
| Sescape (e : ascii)    (* a character of [escape] *)
| Seof.                  (* None *)

(** [escapedstate in self.quotes] *)
Definition in_quotes (st : lstate) : bool :=
  match st with Squote _ => true | _ => false end.

(** [nextchar != st] where [st] is a state holding a character. *)
Definition differs (c : ascii) (st : lstate) : bool :=
  match st with
  | Squote q => negb (Ascii.eqb c q)
  | Sescape e => negb (Ascii.eqb c e)
  | Sspace => negb (Ascii.eqb c " ")
  | Sword => negb (Ascii.eqb c "a")
  | Seof => true
  end.

Inductive read_result :=
| Raise (msg : string)                       (* raise ValueError(msg) *)
| Return (result : option string)            (* the token, or None *)
         (instream : string) (state : lstate).

(** The tail of [read_token], after the loop:
    [result = self.token; if posix and not quoted and result == '':
    result = None]. *)
Definition emit (token : string) (quoted : bool) : option string :=
  if negb quoted && (token =? "") then None else Some token.

(** [self.token or (self.posix and quoted)] *)
Definition have_token (token : string) (quoted : bool) : bool :=
  negb (token =? "") || quoted.

(** The [while True] loop of [read_token].  Every iteration first reads
    one character ([nextchar] is [''] at end of input) and then branches
    on [self.state]. *)
Fixpoint read_token_loop (instream : string) (state : lstate)
         (token : string) (quoted : bool) (escapedstate : lstate)
  : read_result :=
  match instream with
  | EmptyString =>
      match state with
      | Seof => Return (emit "" quoted) "" Seof
      | Sspace => Return (emit token quoted) "" Seof
      | Squote _ => Raise "No closing quotation"
      | Sescape _ => Raise "No escaped character"
      | Sword => Return (emit token quoted) "" Seof
      end
  | String nextchar rest =>
      match state with
      | Seof => Return (emit "" quoted) rest Seof
      | Sspace =>
          if char_in nextchar whitespace then
            if have_token token quoted
            then Return (emit token quoted) rest Sspace
            else read_token_loop rest Sspace token quoted escapedstate
          else if char_in nextchar escape then
            read_token_loop rest (Sescape nextchar) token quoted Sword
          else if char_in nextchar quotes then
            read_token_loop rest (Squote nextchar) token quoted escapedstate
          else
            (* [nextchar in wordchars] and [whitespace_split] both do
               [self.token = nextchar; self.state = 'a'] *)
            read_token_loop rest Sword (String nextchar "") quoted
                            escapedstate
      | Squote q =>
          if Ascii.eqb nextchar q then
            read_token_loop rest Sword token true escapedstate
          else if char_in nextchar escape && char_in q escapedquotes then
            read_token_loop rest (Sescape nextchar) token true (Squote q)
          else
            read_token_loop rest (Squote q) (snoc token nextchar) true
                            escapedstate
      | Sescape e =>
          let token :=
            if in_quotes escapedstate && negb (Ascii.eqb nextchar e)
               && differs nextchar escapedstate
            then snoc token e else token in
          read_token_loop rest escapedstate (snoc token nextchar) quoted
                          escapedstate
      | Sword =>
          if char_in nextchar whitespace then
            if have_token token quoted
            then Return (emit token quoted) rest Sspace
            else read_token_loop rest Sspace token quoted escapedstate
          else if char_in nextchar quotes then
            read_token_loop rest (Squote nextchar) token quoted escapedstate
          else if char_in nextchar escape then
            read_token_loop rest (Sescape nextchar) token quoted Sword
          else
            read_token_loop rest Sword (snoc token nextchar) quoted
                            escapedstate
      end
  end.

(** [read_token]: [quoted = False; escapedstate = ' '], and [self.token]
    is [''] on entry (it is reset before every return). *)
Definition read_token (instream : string) (state : lstate) : read_result :=
  read_token_loop instream state "" false Sspace.

(** [list(lex)]: call [read_token] until it returns [None].  The fuel
    bounds the number of calls; [None] means the fuel ran out. *)
Fixpoint tokens (fuel : nat) (instream : string) (state : lstate)
  : option (string + list string) :=
  match fuel with
  | O => None
  | S fuel' =>
      match read_token instream state with
      | Raise msg => Some (inl msg)
      | Return None _ _ => Some (inr [])
      | Return (Some t) instream' state' =>
          match tokens fuel' instream' state' with
          | None => None
          | Some (inl msg) => Some (inl msg)
          | Some (inr ts) => Some (inr (t :: ts))
          end
      end
  end.

(** What a state contributes to the number of calls still needed: one
    more call is due as long as the end of input has not been seen. *)
Definition weight (state : lstate) : nat :=
  match state with Seof => 0 | _ => 1 end.

(** [shlex.split(s, posix=True)]: [inl msg] stands for
    [raise ValueError(msg)].  Every call to [read_token] that returns a
    token consumes at least one character, so [length s + 2] calls are
    enough (lemma [tokens_enough_fuel] below). *)
Definition split (s : string) : string + list string :=
  match tokens (String.length s + 2) s Sspace with
  | Some r => r
  | None => inr []
  end.

End Shlex.

(** ** The shell: [PyShellX.py] *)

Module Shell.
Import PyStr.

(** *** Exceptions, session state and the monad

    Only the exception classes that the source names, or that decide
    which handler runs, are distinguished.  [OtherException] is any
    other subclass of [Exception] (for instance [IsADirectoryError] or a
    plain [OSError]); [SystemExit] and [KeyboardInterrupt] derive from
    [BaseException] only. *)
Inductive exn :=
| SystemExit (code : nat)
| KeyboardInterrupt
| EOFError
| IndexError (msg : string)
| FileNotFoundError (msg : string)
| NotADirectoryError (msg : string)
| PermissionError (msg : string)
| OtherException (msg : string).

(** [isinstance(e, Exception)] *)
Definition is_Exception (e : exn) : bool :=
  match e with
  | SystemExit _ | KeyboardInterrupt => false
  | _ => true
  end.

(** [str(e)] *)
Definition str (e : exn) : string :=
  match e with
  | SystemExit _ | KeyboardInterrupt | EOFError => ""
  | IndexError m | FileNotFoundError m | NotADirectoryError m
  | PermissionError m | OtherException m => m
  end.

(** The session: the process-wide working directory, the contents of the
    files written through redirection (keyed by absolute path), and
    everything written so far to the session's standard output and
    standard error. *)
Record State := mkState {
  cwd : string;
  files : list (string * string);
  stdout : string;
  stderr : string
}.

Inductive Res (A : Type) :=
| Val (a : A) (s : State)       (* normal completion *)
| Exc (e : exn) (s : State).    (* an exception is propagating *)
Arguments Val {A} a s.
Arguments Exc {A} e s.

Definition M (A : Type) : Type := State -> Res A.

Definition ret {A} (a : A) : M A := fun s => Val a s.

Definition bind {A B} (m : M A) (k : A -> M B) : M B :=
  fun s => match m s with
           | Val a s' => k a s'
           | Exc e s' => Exc e s'
           end.

Definition raise {A} (e : exn) : M A := fun s => Exc e s.

(** [try: body  except ...: handler].  [handler e] is [None] when no
    [except] clause matches [e], which then keeps propagating. *)
Definition try_except {A} (body : M A) (handler : exn -> option (M A))
  : M A :=
  fun s => match body s with
           | Val a s' => Val a s'
           | Exc e s' => match handler e with
                         | Some h => h s'
                         | None => Exc e s'
                         end
           end.

Notation "x <- m ;; k" := (bind m (fun x => k))
  (at level 61, m at next level, right associativity).
Notation "m ;;; k" := (bind m (fun _ => k))
  (at level 61, right associativity).

(** [sys.stdout.write(text)], [sys.stderr.write(text)], [print(text)] and
    [print(text, file=sys.stderr)]. *)
Definition add_stdout (s : State) (text : string) : State :=
  mkState (cwd s) (files s) (stdout s ++ text) (stderr s).
Definition add_stderr (s : State) (text : string) : State :=
  mkState (cwd s) (files s) (stdout s) (stderr s ++ text).
Definition sys_stdout_write (text : string) : M unit :=
  fun s => Val tt (add_stdout s text).
Definition sys_stderr_write (text : string) : M unit :=
  fun s => Val tt (add_stderr s text).
Definition print (text : string) : M unit := sys_stdout_write (text ++ nl).
Definition print_err (text : string) : M unit :=
  sys_stderr_write (text ++ nl).

(** [sys.exit(code)] *)
Definition sys_exit {A} (code : nat) : M A := raise (SystemExit code).

(** [l[i]] *)
Definition index (l : list string) (i : nat) : M string :=
  match nth_error l i with
  | Some x => ret x
  | None => raise (IndexError "list index out of range")
  end.

(** [x in l] for a list (or set) of strings. *)
Definition str_in (x : string) (l : list string) : bool :=
  existsb (String.eqb x) l.

(** *** The operating system

    The collaborators that the shell calls but does not implement.  Each
    is a function of the current working directory where the real call
    depends on it.  Of a child process only its two output streams and the
    way its launch fails are represented; of the file system, only the
    files that the shell itself writes through redirection. *)
Inductive oserror :=
| ENOENT     (* raised as FileNotFoundError *)
| ENOTDIR    (* raised as NotADirectoryError *)
| EACCES     (* raised as PermissionError *)
| EOTHER.    (* any other failure, raised as some other Exception *)

Definition os_exn (k : oserror) (detail : string) : exn :=
  match k with
  | ENOENT => FileNotFoundError detail
  | ENOTDIR => NotADirectoryError detail
  | EACCES => PermissionError detail
  | EOTHER => OtherException detail
  end.

Inductive run_result :=
| Completed (out err : string)   (* the child ran; its two output streams *)
| LaunchFailed (k : oserror) (detail : string)
| Interrupted.                   (* KeyboardInterrupt while waiting *)

Record OS := mkOS {
  (** [os.environ.get("HOME")] *)
  environ_HOME : option string;
  (** [shutil.which(command)] *)
  which : string -> string -> option string;
  (** [os.path.isfile(path)] *)
  isfile : string -> string -> bool;
  (** [os.access(path, os.X_OK)] *)
  access_X_OK : string -> string -> bool;
  (** [os.path.abspath(path)] *)
  abspath : string -> string -> string;
  (** [os.chdir(path)]: the new working directory, or the failure *)
  chdir : string -> string -> (oserror * string) + string;
  (** whether [open(path, mode)] fails, for either mode *)
  open_error : string -> string -> option (oserror * string);
  (** [subprocess.run(argv, text=True, ...)] *)
  run : string -> list string -> run_result
}.

Inductive mode := W | A.     (* "w" | "a" *)

(** Where a child's stream goes: [subprocess.PIPE] or an open file. *)
Inductive target := PIPE | File (path : string).

Fixpoint file_update (path : string) (f : option string -> string)
         (fs : list (string * string)) : list (string * string) :=
  match fs with
  | [] => [(path, f None)]
  | (p, content) :: fs' =>
      if path =? p then (p, f (Some content)) :: fs'
      else (p, content) :: file_update path f fs'
  end.

Fixpoint file_content (path : string) (fs : list (string * string))
  : option string :=
  match fs with
  | [] => None
  | (p, content) :: fs' =>
      if path =? p then Some content else file_content path fs'
  end.

Section WithOS.
Variable os : OS.

(** [open(path, mode)]: fails as the system decides; otherwise the file
    is created if absent and, in mode ["w"], truncated. *)
Definition open (path : string) (m : mode) : M target :=
  fun s =>
    match open_error os (cwd s) path with
    | Some (k, detail) => Exc (os_exn k detail) s
    | None =>
        let p := abspath os (cwd s) path in
        let init old := match m, old with
                        | A, Some content => content
                        | _, _ => ""
                        end in
        Val (File p)
            (mkState (cwd s) (file_update p init (files s))
                     (stdout s) (stderr s))
    end.

(** Text arriving on an open file: [f.write(text)], or the output of a
    child process whose stream was redirected to the file. *)
Definition file_write (t : target) (text : string) : M unit :=
  fun s =>
    match t with
    | PIPE => Val tt s
    | File p =>
        let app old := match old with
                       | Some content => content ++ text
                       | None => text
                       end in
        Val tt (mkState (cwd s) (file_update p app (files s))
                        (stdout s) (stderr s))
    end.

(** [os.getcwd()] *)
Definition os_getcwd : M string := fun s => Val (cwd s) s.

(** [os.environ.get("HOME", "/")] *)
Definition environ_get_HOME : string :=
  match environ_HOME os with Some h => h | None => "/" end.

(** [os.path.abspath(path)] *)
Definition os_path_abspath (path : string) : M string :=
  fun s => Val (abspath os (cwd s) path) s.

(** [os.chdir(path)] *)
Definition os_chdir (path : string) : M unit :=
  fun s =>
    match chdir os (cwd s) path with
    | inr d => Val tt (mkState d (files s) (stdout s) (stderr s))
    | inl (k, detail) => Exc (os_exn k detail) s
    end.

(** [subprocess.run(command_parts, text=True, stdout=.., stderr=..)]:
    returns [(result.stdout, result.stderr)], each the captured text
    when the stream is a pipe (and unused otherwise). *)
Definition subprocess_run (command_parts : list string)
           (stdout_target stderr_target : target) : M (string * string) :=
  fun s =>
    match run os (cwd s) command_parts with
    | Completed out err =>
        (file_write stdout_target out ;;;
         file_write stderr_target err ;;;
         ret (out, err)) s
    | LaunchFailed k detail => Exc (os_exn k detail) s
    | Interrupted => Exc KeyboardInterrupt s
    end.

(** *** [find_executable] *)
Definition find_executable (command : string) : M (option string) :=
  fun s => Val (which os (cwd s) command) s.

(** *** [run_external_command]

    The body of the [try] statement first, then its three [except]
    clauses, then the function. *)
Definition run_external_try (command_parts : list string)
           (output_file : option string) (append_output : bool)
           (error_file : option string) (append_error : bool) : M unit :=
  let stdout_mode := if append_output then A else W in
  let stderr_mode := if append_error then A else W in
  stdout_target <-
    (match output_file with
     | Some f => if truthy output_file then open f stdout_mode
                 else ret PIPE
     | None => ret PIPE
     end) ;;
  stderr_target <-
    (match error_file with
     | Some f => if truthy error_file then open f stderr_mode
                 else ret PIPE
     | None => ret PIPE
     end) ;;
  result <- subprocess_run command_parts stdout_target stderr_target ;;
  (if negb (truthy output_file)
   then sys_stdout_write (fst result) else ret tt) ;;;
  (if negb (truthy error_file)
   then sys_stderr_write (snd result) else ret tt) ;;;
  ret tt.

Definition run_external_except (command_parts : list string) (e : exn)
  : option (M unit) :=
  match e with
  | FileNotFoundError _ =>
      Some (c0 <- index command_parts 0 ;;
            print_err (c0 ++ ": command not found"))
  | PermissionError _ =>
      Some (c0 <- index command_parts 0 ;;
            print_err (c0 ++ ": permission denied"))
  | _ =>
      if is_Exception e
      then Some (print_err ("Error running command: " ++ str e))
      else None
  end.

Definition run_external_command (command_parts : list string)
           (output_file : option string) (append_output : bool)
           (error_file : option string) (append_error : bool) : M unit :=
  try_except
    (run_external_try command_parts output_file append_output
                      error_file append_error)
    (run_external_except command_parts).

(** *** [change_directory] *)
Definition change_directory (path : string) : M unit :=
  let path := if path =? "~" then environ_get_HOME else path in
  try_except
    (p <- os_path_abspath path ;; os_chdir p)
    (fun e =>
       match e with
       | FileNotFoundError _ =>
           Some (print_err ("cd: " ++ path
                            ++ ": No such file or directory"))
       | NotADirectoryError _ =>
           Some (print_err ("cd: " ++ path ++ ": Not a directory"))
       | PermissionError _ =>
           Some (print_err ("cd: " ++ path ++ ": Permission denied"))
       | _ => None
       end).

(** *** [parse_input] *)
Definition parse_input (user_input : string) : M (list string) :=
  match Shlex.split user_input with
  | inr ts => ret ts
  | inl e => print_err ("Parsing error: " ++ e) ;;; ret []
  end.

(** *** [handle_redirection]

    The local variables of the function, together with the text it has
    printed to standard error so far. *)
Record locals := mkLocals {
  clean_command : list string;
  output_file : option string;
  append_output : bool;
  error_file : option string;
  append_error : bool;
  printed : string
}.

Definition set_output (v : locals) (f : string) (app : bool) : locals :=
  mkLocals (clean_command v) (Some f) app (error_file v) (append_error v)
           (printed v).
Definition set_error (v : locals) (f : string) (app : bool) : locals :=
  mkLocals (clean_command v) (output_file v) (append_output v) (Some f) app
           (printed v).
Definition report (v : locals) (text : string) : locals :=
  mkLocals (clean_command v) (output_file v) (append_output v)
           (error_file v) (append_error v) (printed v ++ text ++ nl).
Definition append_clean (v : locals) (part : string) : locals :=
  mkLocals (clean_command v ++ [part]) (output_file v) (append_output v)
           (error_file v) (append_error v) (printed v).

Definition missing_output : string :=
  "Syntax error: Missing file for output redirection".
Definition missing_error : string :=
  "Syntax error: Missing file for error redirection".

(** The [while i < len(command_parts)] loop.  [nth_error command_parts
    i] is [None] exactly when [i < len(command_parts)] fails.  Each
    iteration increases [i], so [len(command_parts)] iterations are
    enough. *)
Fixpoint redirection_loop (fuel : nat) (command_parts : list string)
         (i : nat) (v : locals) : locals :=
  match fuel with
  | O => v
  | S fuel' =>
      match nth_error command_parts i with
      | None => v
      | Some part =>
          let next := nth_error command_parts (i + 1) in
          if str_in part [">"; "1>"] then
            match next with
            | Some f =>
                redirection_loop fuel' command_parts (i + 1 + 1)
                                 (set_output v f false)
            | None =>
                redirection_loop fuel' command_parts (i + 1)
                                 (report v missing_output)
            end
          else if str_in part [">>"; "1>>"] then
            match next with
            | Some f =>
                redirection_loop fuel' command_parts (i + 1 + 1)
                                 (set_output v f true)
            | None =>
                redirection_loop fuel' command_parts (i + 1)
                                 (report v missing_output)
            end
          else if part =? "2>" then
            match next with
            | Some f =>
                redirection_loop fuel' command_parts (i + 1 + 1)
                                 (set_error v f false)
            | None =>
                redirection_loop fuel' command_parts (i + 1)
                                 (report v missing_error)
            end
          else if part =? "2>>" then
            match next with
            | Some f =>
                redirection_loop fuel' command_parts (i + 1 + 1)
                                 (set_error v f true)
            | None =>
                redirection_loop fuel' command_parts (i + 1)
                                 (report v missing_error)
            end
          else
            redirection_loop fuel' command_parts (i + 1)
                             (append_clean v part)
      end
  end.

Definition initial_locals : locals := mkLocals [] None false None false "".

(** The function without its effect: the final values of the locals. *)
Definition redirection_scan (command_parts : list string) : locals :=
  redirection_loop (List.length command_parts) command_parts 0
                   initial_locals.

Definition handle_redirection (command_parts : list string)
  : M (list string * option string * bool * option string * bool) :=
  let v := redirection_scan command_parts in
  sys_stderr_write (printed v) ;;;
  ret (clean_command v, output_file v, append_output v, error_file v,
       append_error v).

(** *** [execute_quoted_executable] *)
Definition os_path_isfile (path : string) : M bool :=
  fun s => Val (isfile os (cwd s) path) s.
Definition os_access_X_OK (path : string) : M bool :=
  fun s => Val (access_X_OK os (cwd s) path) s.

(** [command_parts[0] = x] *)
Definition set_first (command_parts : list string) (x : string)
  : list string :=
  match command_parts with
  | [] => []
  | _ :: args => x :: args
  end.

Definition execute_quoted_executable (command_parts : list string)
           (output_file : option string) (append_output : bool)
           (error_file : option string) (append_error : bool) : M unit :=
  executable_path <- index command_parts 0 ;;
  is_file <- os_path_isfile executable_path ;;
  direct <- (if is_file then os_access_X_OK executable_path
             else ret false) ;;
  if direct then
    run_external_command command_parts output_file append_output
                         error_file append_error
  else
    c0 <- index command_parts 0 ;;
    resolved_executable <- find_executable c0 ;;
    match resolved_executable with
    | Some r =>
        if truthy resolved_executable then
          run_external_command (set_first command_parts r) output_file
                               append_output error_file append_error
        else print_err (executable_path ++ ": command not found")
    | None => print_err (executable_path ++ ": command not found")
    end.

(** *** [main] *)
Definition BUILTIN_COMMANDS : list string :=
  ["echo"; "exit"; "type"; "pwd"; "cd"].

(** What [input()] delivers on one call: a line (without its newline)
    or an interrupt.  End of input raises [EOFError]. *)
Inductive event := Line (text : string) | CtrlC.

Definition input (ev : option event) : M string :=
  match ev with
  | Some (Line text) => ret text
  | Some CtrlC => raise KeyboardInterrupt
  | None => raise EOFError
  end.

(** [with open(output_file, mode) as f: f.write(text)] *)
Definition write_to (path : string) (m : mode) (text : string) : M unit :=
  f <- open path m ;; file_write f text.

(** The [if]/[elif] chain of [main], from the [exit] test on: what one
    line does once its clean, non-empty command and its redirections
    are known. *)
Definition dispatch (command_parts : list string)
           (output_file : option string) (append_output : bool)
           (error_file : option string) (append_error : bool) : M unit :=
  c0 <- index command_parts 0 ;;
  (if (c0 =? "exit") && (List.length command_parts =? 2)%nat
      && (nth 1 command_parts "" =? "0")
   then sys_exit 0 else ret tt) ;;;
  if c0 =? "echo" then
    let output := join " " (tl command_parts) in
    match output_file with
    | Some f =>
        if truthy output_file
        then write_to f (if append_output then A else W) (output ++ nl)
        else print output
    | None => print output
    end
  else if c0 =? "type" then
    cmd_to_check <- index command_parts 1 ;;
    if str_in cmd_to_check BUILTIN_COMMANDS then
      print (cmd_to_check ++ " is a shell builtin")
    else
      executable_path <- find_executable cmd_to_check ;;
      match executable_path with
      | Some path =>
          if truthy executable_path
          then print (cmd_to_check ++ " is " ++ path)
          else print_err (cmd_to_check ++ ": not found")
      | None => print_err (cmd_to_check ++ ": not found")
      end
  else if c0 =? "pwd" then
    output <- os_getcwd ;;
    match output_file with
    | Some f =>
        if truthy output_file
        then write_to f (if append_output then A else W) (output ++ nl)
        else print output
    | None => print output
    end
  else if c0 =? "cd" then
    if (1 <? List.length command_parts)%nat then
      path <- index command_parts 1 ;;
      change_directory path
    else
      os_chdir environ_get_HOME
  else
    execute_quoted_executable command_parts output_file append_output
                              error_file append_error.

(** The body of the [try] statement of one loop iteration.  A
    [continue] is a normal return. *)
Definition loop_body (ev : option event) : M unit :=
  raw <- input ev ;;
  let user_input := strip raw in
  if user_input =? "" then ret tt else
  command_parts <- parse_input user_input ;;
  match command_parts with
  | [] => ret tt
  | _ =>
      r <- handle_redirection command_parts ;;
      let '(command_parts, output_file, append_output, error_file,
            append_error) := r in
      match command_parts with
      | [] => ret tt
      | _ => dispatch command_parts output_file append_output
                      error_file append_error
      end
  end.

(** One iteration of [while True]: the prompt, then the [try] statement
    with its two handlers.  [KeyboardInterrupt] is raised where [input()]
    waits and where a child runs; an interrupt that arrives while the
    prompt is written (lines 142-143, outside the [try]) or inside the
    handler of line 210 is not represented, and no property below speaks
    of one. *)
Definition iteration (ev : option event) : M unit :=
  sys_stdout_write "$ " ;;;
  try_except (loop_body ev)
             (fun e =>
                match e with
                | EOFError => Some (sys_exit 0)
                | KeyboardInterrupt => Some (sys_stdout_write nl)
                | _ => None
                end).

(** [main()] on the sequence of things [input()] will deliver, end of
    input after the last.  The loop has no normal exit: the session
    ends with the exception that leaves [main], [SystemExit 0] for a
    successful termination. *)
Fixpoint main (inputs : list event) (s : State) : exn * State :=
  match inputs with
  | [] =>
      (* [input()] raises [EOFError] again on every further call, and
         [iteration None] always raises (lemma [iteration_eof]) *)
      match iteration None s with
      | Exc e s' => (e, s')
      | Val _ s' => (EOFError, s')
      end
  | ev :: rest =>
      match iteration (Some ev) s with
      | Exc e s' => (e, s')
      | Val _ s' => main rest s'
      end
  end.

End WithOS.
End Shell.

(** ** Sample systems *)

Module Samples.
Import PyStr Shell.

(** A system with home directory [/home/u] in which nothing is on the
    search path, paths are made absolute by prefixing the working
    directory, [/home/u] and [/tmp] are the only directories, every
    file can be opened and no program can be launched. *)
Definition simple_abspath (cwd path : string) : string :=
  match path with
  | String "/" _ => path
  | _ => if cwd =? "/" then "/" ++ path else cwd ++ "/" ++ path
  end.

Definition bare : OS :=
  mkOS (Some "/home/u")
       (fun _ _ => None)
       (fun _ _ => false)
       (fun _ _ => false)
       simple_abspath
       (fun _ path => if str_in path ["/home/u"; "/tmp"; "/"] then inr path
                      else inl (ENOENT, "No such file or directory"))
       (fun _ _ => None)
       (fun _ _ => LaunchFailed ENOENT "No such file or directory").

Definition start : State := mkState "/home/u" [] "" "".

(** The same system with one executable file [tool] in the working
    directory, which is not on the search path: the direct check of the
    name succeeds, the search-path lookup does not, and the launch of the
    bare name, which the system looks up on the search path, fails. *)
Definition local_tool : OS :=
  mkOS (Some "/home/u")
       (fun _ _ => None)
       (fun _ path => path =? "tool")
       (fun _ path => path =? "tool")
       simple_abspath
       (chdir bare)
       (fun _ _ => None)
       (fun _ _ => LaunchFailed ENOENT "No such file or directory").

(** The same system with [ls] on the search path, but not launchable. *)
Definition locked_ls : OS :=
  mkOS (Some "/home/u")
       (fun _ name => if name =? "ls" then Some "/bin/ls" else None)
       (fun _ _ => false)
       (fun _ _ => false)
       simple_abspath
       (chdir bare)
       (fun _ _ => None)
       (fun _ _ => LaunchFailed EACCES "Permission denied").

End Samples.

(** ** The specification's reading of redirection extraction

    Section 4.2 of the specification, written out as it is worded: the
    table of directive tokens, the left-to-right grouping of a token
    sequence into words, directives with their filename and a directive
    left without a filename, and what the clean tokens and the two targets
    are in terms of that grouping. *)

Module Spec.
Import PyStr Shell.

Inductive stream := Out | Err.

(** The table of recognised directive tokens: the stream and the append
    flag of each. *)
Definition directive (part : string) : option (stream * bool) :=
  if str_in part [">"; "1>"] then Some (Out, false)
  else if str_in part [">>"; "1>>"] then Some (Out, true)
  else if part =? "2>" then Some (Err, false)
  else if part =? "2>>" then Some (Err, true)
  else None.

Inductive item :=
| Word (w : string)
| Redirect (st : stream) (app : bool) (file : string)
| Dangling (st : stream).

(** Left-to-right scan: a directive takes the token after it as its
    filename, whatever that token is. *)
Fixpoint items (tokens : list string) : list item :=
  match tokens with
  | [] => []
  | part :: rest =>
      match directive part with
      | None => Word part :: items rest
      | Some (st, app) =>
          match rest with
          | file :: rest' => Redirect st app file :: items rest'
          | [] => [Dangling st]
          end
      end
  end.

(** The clean tokens: the words, in order. *)
Fixpoint words (its : list item) : list string :=
  match its with
  | [] => []
  | Word w :: its' => w :: words its'
  | _ :: its' => words its'
  end.

Definition stream_eqb (a b : stream) : bool :=
  match a, b with
  | Out, Out | Err, Err => true
  | _, _ => false
  end.

(** The target of a stream: file and append flag of the last directive
    for that stream, starting from [cur] when there is none. *)
Fixpoint last_redirect (st : stream) (cur : option string * bool)
         (its : list item) : option string * bool :=
  match its with
  | [] => cur
  | Redirect st' app file :: its' =>
      last_redirect st (if stream_eqb st st' then (Some file, app) else cur)
                    its'
  | _ :: its' => last_redirect st cur its'
  end.

Definition missing (st : stream) : string :=
  match st with
  | Out => missing_output
  | Err => missing_error
  end.

(** The syntax errors reported, in order. *)
Fixpoint complaints (its : list item) : string :=
  match its with
  | [] => ""
  | Dangling st :: its' => missing st ++ nl ++ complaints its'
  | _ :: its' => complaints its'
  end.

(** One item applied to the locals of [handle_redirection]. *)
Definition apply_item (v : locals) (it : item) : locals :=
  match it with
  | Word w => append_clean v w
  | Redirect Out app file => set_output v file app
  | Redirect Err app file => set_error v file app
  | Dangling st => report v (missing st)
  end.

End Spec.


(** ** Notions used to state the properties

    Read off the source: the command resolution that
    [execute_quoted_executable] performs before it runs anything, and the
    text of the diagnostics that the [except] clauses print. *)

Module Notions.
Import PyStr Shell.

(** The argument vector that [execute_quoted_executable] hands to
    [run_external_command]: the command as typed when its name passes the
    direct check, the command with its name replaced by the search-path
    result otherwise, [None] when it prints "command not found". *)
Definition resolve_external (os : OS) (cwd : string)
           (command_parts : list string) : option (list string) :=
  match command_parts with
  | [] => None
  | c0 :: args =>
      if isfile os cwd c0 && access_X_OK os cwd c0 then Some command_parts
      else match which os cwd c0 with
           | Some r => if truthy (Some r) then Some (r :: args) else None
           | None => None
           end
  end.

(** The path that the [type] built-in reports for a name that is not a
    built-in, [None] when it prints "not found". *)
Definition type_lookup (os : OS) (cwd : string) (name : string)
  : option string :=
  match which os cwd name with
  | Some r => if truthy (Some r) then Some r else None
  | None => None
  end.

(** [type name] reports a path exactly when running [name] resolves to an
    external executable. *)
Definition type_agrees_with_resolver (os : OS) (s : State) (name : string)
  : Prop :=
  (exists p, dispatch os ["type"; name] None false None false s
             = Val tt (add_stdout s (name ++ " is " ++ p ++ nl)))
  <-> (exists argv, resolve_external os (cwd s) [name] = Some argv).

(** The diagnostic that [run_external_command] prints for an exception
    raised in its [try] body. *)
Definition diagnostic (c0 : string) (e : exn) : string :=
  match e with
  | FileNotFoundError _ => c0 ++ ": command not found"
  | PermissionError _ => c0 ++ ": permission denied"
  | _ => "Error running command: " ++ str e
  end.

(** A redirection target that can be opened, or no target at all. *)
Definition openable (os : OS) (cwd : string) (target : option string)
  : Prop :=
  match target with
  | Some f => open_error os cwd f = None
  | None => True
  end.

(** The reason that [change_directory] prints for each failure it
    handles. *)
Definition reason (k : oserror) : string :=
  match k with
  | ENOENT => "No such file or directory"
  | ENOTDIR => "Not a directory"
  | EACCES => "Permission denied"
  | EOTHER => ""
  end.

(** A computation that never raises [SystemExit]. *)
Definition no_exit {A} (m : M A) : Prop :=
  forall s code s', m s <> Exc (SystemExit code) s'.

(** A token that needs no quoting: not empty, and free of white space,
    quotes and backslashes. *)
Definition plain_char (c : ascii) : bool :=
  negb (isspace c || char_in c Shlex.whitespace || char_in c Shlex.quotes
        || char_in c Shlex.escape).

Fixpoint all_chars (p : ascii -> bool) (s : string) : bool :=
  match s with
  | EmptyString => true
  | String c s' => p c && all_chars p s'
  end.

Definition plain_word (w : string) : bool :=
  negb (w =? "") && all_chars plain_char w.

(** A token that is not a redirection operator. *)
Definition no_directive (part : string) : bool :=
  match Spec.directive part with
  | None => true
  | Some _ => false
  end.

(** Strings that [str.strip] leaves alone: the first and the last
    character are not white space. *)
Definition starts_unspaced (s : string) : bool :=
  match s with
  | EmptyString => false
  | String c _ => negb (isspace c)
  end.

Fixpoint ends_unspaced (s : string) : bool :=
  match s with
  | EmptyString => false
  | String c EmptyString => negb (isspace c)
  | String _ s' => ends_unspaced s'
  end.

(** The double quote and the backslash. *)
Definition dquote : ascii := "034".
Definition backslash : ascii := "092".

(** A character that stands for itself between two quotes [q]: not [q]
    itself and, between double quotes, not the backslash. *)
Definition quotable (q c : ascii) : bool :=
  negb (Ascii.eqb c q)
  && negb (char_in c Shlex.escape && char_in q Shlex.escapedquotes).

(** The words of a simple command line: written bare, or between two
    quotes [q]. *)
Inductive word :=
| Bare (w : string)
| Quoted (q : ascii) (body : string).

(** The word as typed on the line. *)
Definition render (w : word) : string :=
  match w with
  | Bare w => w
  | Quoted q body => String q (body ++ String q "")
  end.

(** The word as the user means it. *)
Definition content (w : word) : string :=
  match w with
  | Bare w => w
  | Quoted _ body => body
  end.

Definition is_quoted (w : word) : bool :=
  match w with
  | Bare _ => false
  | Quoted _ _ => true
  end.

Definition well_formed (w : word) : bool :=
  match w with
  | Bare w => plain_word w
  | Quoted q body => char_in q Shlex.quotes && all_chars (quotable q) body
  end.

(** What a backslash followed by [c] contributes to a token between double
    quotes. *)
Definition escaped_in_dquotes (c : ascii) : string :=
  if Ascii.eqb c dquote || Ascii.eqb c backslash
  then String c ""
  else String backslash (String c "").

End Notions.

(** ** Notions used to state further properties of the code *)

Module Observations.
Import PyStr Shell Notions.

(** The session as a computation leaves it, however it ends. *)
Definition state_of {A} (r : Res A) : State :=
  match r with
  | Val _ s => s
  | Exc _ s => s
  end.

(** A computation that, however it ends, leaves a session related by [R]
    to the one it started from. *)
Definition preserves (R : State -> State -> Prop) {A} (m : M A) : Prop :=
  forall s, R s (state_of (m s)).

Definition same_cwd (s s' : State) : Prop := cwd s' = cwd s.

Definition same_files (s s' : State) : Prop := files s' = files s.

(** The content of a file, empty when the file does not exist. *)
Definition old_content (path : string) (fs : list (string * string))
  : string :=
  match file_content path fs with
  | Some content => content
  | None => ""
  end.

(** White space of the tokenizer, possibly none, and a separator between
    two words: at least one such character. *)
Definition blank (s : string) : bool :=
  all_chars (fun c => char_in c Shlex.whitespace) s.

Definition separator (s : string) : bool := negb (s =? "") && blank s.

(** Words as typed on a line, each preceded by its separator. *)
Fixpoint spaced (l : list (string * word)) : string :=
  match l with
  | [] => ""
  | (sep, w) :: l' => sep ++ render w ++ spaced l'
  end.

(** The tokens meant by such words. *)
Definition contents (l : list (string * word)) : list string :=
  map (fun p => content (snd p)) l.

(** Nothing, or something that begins with white space. *)
Definition starts_blank (s : string) : bool :=
  match s with
  | EmptyString => true
  | String c _ => char_in c Shlex.whitespace
  end.

(** The result of a line whose first token is [t] and whose remainder
    gives [r]. *)
Definition cons_token (t : string) (r : string + list string)
  : string + list string :=
  match r with
  | inl msg => inl msg
  | inr ts => inr (t :: ts)
  end.

Definition spaced_well_formed (l : list (string * word)) : bool :=
  forallb (fun p => separator (fst p) && well_formed (snd p)) l.

(** Two systems that differ at most in what the search path holds, in
    which files are executable and in what launching a program does. *)
Definition same_but_programs (os os' : OS) : Prop :=
  environ_HOME os = environ_HOME os'
  /\ (forall cwd path, abspath os cwd path = abspath os' cwd path)
  /\ (forall cwd path, chdir os cwd path = chdir os' cwd path)
  /\ (forall cwd path, open_error os cwd path = open_error os' cwd path).

(** The text after an opening double quote, as long as the quote is not
    closed: runs of characters that stand for themselves, and backslashes
    each followed by one character. *)
Inductive dq_piece :=
| Run (s : string)
| Esc (c : ascii).

Definition render_dq_piece (p : dq_piece) : string :=
  match p with
  | Run s => s
  | Esc c => String backslash (String c "")
  end.

Definition dq_piece_ok (p : dq_piece) : bool :=
  match p with
  | Run s => all_chars (quotable dquote) s
  | Esc _ => true
  end.

Fixpoint render_dq (ps : list dq_piece) : string :=
  match ps with
  | [] => ""
  | p :: ps' => render_dq_piece p ++ render_dq ps'
  end.

(** A word that opens a quotation and reaches the end of the line without
    closing it, with the message of the error that the tokenizer raises
    for it: the line ends within the quoted text or, between double
    quotes, right after a backslash that is not itself escaped. *)
Inductive unterminated : string -> string -> Prop :=
| Open_single (body : string) :
    all_chars (quotable "'") body = true ->
    unterminated (String "'" body) "No closing quotation"
| Open_double (ps : list dq_piece) :
    forallb dq_piece_ok ps = true ->
    unterminated (String dquote (render_dq ps)) "No closing quotation"
| Open_double_escape (ps : list dq_piece) :
    forallb dq_piece_ok ps = true ->
    unterminated (String dquote (render_dq ps ++ String backslash ""))
                 "No escaped character".

(** Two computations that do the same from every session. *)
Definition same_result {A} (m m' : M A) : Prop := forall s, m s = m' s.

(** The two targets that a single directive for stream [st] leaves. *)
Definition single_target (st : Spec.stream) (f : string) (ap : bool)
  : option string * bool * option string * bool :=
  match st with
  | Spec.Out => (Some f, ap, None, false)
  | Spec.Err => (None, false, Some f, ap)
  end.

End Observations.

(** ** Further sample systems *)

Module Worlds.
Import PyStr Shell.

(** [/loop] cannot be entered, for a reason that is none of the three that
    [change_directory] handles. *)
Definition looping : OS :=
  mkOS (Some "/home/u")
       (fun _ _ => None)
       (fun _ _ => false)
       (fun _ _ => false)
       Samples.simple_abspath
       (fun _ path =>
          if path =? "/loop"
          then inl (EOTHER, "Too many levels of symbolic links")
          else inr path)
       (fun _ _ => None)
       (fun _ _ => LaunchFailed ENOENT "No such file or directory").

(** [sleep] is on the search path and is interrupted while it runs. *)
Definition sleeper : OS :=
  mkOS (Some "/home/u")
       (fun _ name => if name =? "sleep" then Some "/bin/sleep" else None)
       (fun _ _ => false)
       (fun _ _ => false)
       Samples.simple_abspath
       (chdir Samples.bare)
       (fun _ _ => None)
       (fun _ _ => Interrupted).

(** [make] is on the search path; it prints a line on each stream. *)
Definition builder : OS :=
  mkOS (Some "/home/u")
       (fun _ name => if name =? "make" then Some "/usr/bin/make" else None)
       (fun _ _ => false)
       (fun _ _ => false)
       Samples.simple_abspath
       (chdir Samples.bare)
       (fun _ _ => None)
       (fun _ _ => Completed ("built" ++ nl) ("warning" ++ nl)).

End Worlds.

(** * Properties *)

(** ** Tokenizer: sample runs and termination *)

Example split_words :
  Shlex.split "echo  hi   there" = inr ["echo"; "hi"; "there"].
Proof. reflexivity. Qed.

Example split_single_quotes :
  Shlex.split "echo 'a  b' c" = inr ["echo"; "a  b"; "c"].
Proof. reflexivity. Qed.

Example split_unterminated :
  Shlex.split "echo 'unterminated" = inl "No closing quotation".
Proof. reflexivity. Qed.

Example split_escapes :
  Shlex.split (String "034" "x\ny" ++ String "034" " a\ b \\")
  = inr ["x\ny"; "a b"; "\"].
Proof. reflexivity. Qed.

Section ShlexTermination.
Import PyStr Shlex.

(** A call of the loop that returns either sat at end of input and leaves
    the lexer in its final state, or consumed at least one character. *)
Lemma read_token_loop_consumes :
  forall instream state token quoted escapedstate r instream' state',
    read_token_loop instream state token quoted escapedstate
    = Return r instream' state' ->
    (instream = "" /\ instream' = "" /\ state' = Seof)
    \/ String.length instream' < String.length instream.
Proof.
  induction instream as [|c rest IH]; intros state token quoted es r i' s' H.
  - left. destruct state; cbn [read_token_loop] in H; inversion H; auto.
  - right. cbn [read_token_loop] in H.
    assert (Hrec : forall st tk q e,
               read_token_loop rest st tk q e = Return r i' s' ->
               String.length i' < String.length (String c rest)).
    { intros st tk q e Hr. apply IH in Hr. simpl.
      destruct Hr as [(-> & -> & _) | Hr]; simpl; lia. }
    destruct state.
    + destruct (char_in c whitespace).
      * destruct (have_token token quoted); [inversion H; subst; simpl; lia|eauto].
      * destruct (char_in c escape); [eauto|].
        destruct (char_in c quotes); eauto.
    + destruct (char_in c whitespace).
      * destruct (have_token token quoted); [inversion H; subst; simpl; lia|eauto].
      * destruct (char_in c quotes); [eauto|].
        destruct (char_in c escape); eauto.
    + destruct (Ascii.eqb c q); [eauto|].
      destruct (char_in c escape && char_in q escapedquotes); eauto.
    + eauto.
    + inversion H; subst; simpl; lia.
Qed.

Lemma read_token_eof : forall instream,
    exists rest, read_token instream Seof = Return None rest Seof.
Proof. intros [|c rest]; eexists; reflexivity. Qed.

(** The iteration never runs out of fuel once the fuel exceeds the number
    of characters left (plus one while the end has not been seen). *)
Lemma tokens_enough_fuel : forall fuel instream state,
    String.length instream + weight state < fuel ->
    tokens fuel instream state <> None.
Proof.
  induction fuel as [|fuel IH]; intros instream state Hlt; [lia|].
  simpl. destruct (read_token instream state) as [msg|r i' s'] eqn:E;
           [discriminate|].
  destruct r as [t|]; [|discriminate].
  assert (Hm : String.length i' + weight s' < fuel).
  { unfold read_token in E.
    destruct (read_token_loop_consumes _ _ _ _ _ _ _ _ E)
      as [(-> & -> & ->) | Hlen].
    - destruct state; simpl in *; try lia. discriminate.
    - destruct state;
        try (destruct s'; simpl in *; lia).
      destruct instream; simpl in E; discriminate. }
  specialize (IH _ _ Hm).
  destruct (tokens fuel i' s') as [[msg|ts]|]; congruence.
Qed.

(** [shlex.split] always returns or raises: its fuel is enough. *)
Lemma split_total : forall s,
    tokens (String.length s + 2) s Sspace = Some (split s).
Proof.
  intros s. unfold split.
  pose proof (tokens_enough_fuel (String.length s + 2) s Sspace) as H.
  destruct (tokens (String.length s + 2) s Sspace); [reflexivity|].
  exfalso. apply H; [simpl; lia|reflexivity].
Qed.

(** More fuel does not change a result. *)
Lemma tokens_more_fuel : forall fuel fuel' instream state r,
    tokens fuel instream state = Some r -> fuel <= fuel' ->
    tokens fuel' instream state = Some r.
Proof.
  induction fuel as [|fuel IH]; intros fuel' instream state r H Hle;
    [discriminate|].
  destruct fuel' as [|fuel']; [lia|].
  simpl in *. destruct (read_token instream state) as [msg|o i' s']; auto.
  destruct o as [t|]; auto.
  destruct (tokens fuel i' s') as [r'|] eqn:E; [|discriminate].
  rewrite (IH fuel' _ _ _ E) by lia. exact H.
Qed.

Lemma split_from_tokens : forall fuel s r,
    tokens fuel s Sspace = Some r -> split s = r.
Proof.
  intros fuel s r H.
  pose proof (split_total s) as Ht.
  destruct (Nat.le_ge_cases fuel (String.length s + 2)) as [Hle|Hge].
  - rewrite (tokens_more_fuel _ _ _ _ _ H Hle) in Ht. congruence.
  - rewrite (tokens_more_fuel _ _ _ _ _ Ht Hge) in H. congruence.
Qed.

End ShlexTermination.


(** ** Redirection extraction *)

Section Redirection.
Import PyStr Shell Spec.

Lemma append_empty_r : forall s : string, s ++ "" = s.
Proof. induction s as [|c s IH]; simpl; congruence. Qed.

Lemma append_assoc : forall s t u : string, (s ++ t) ++ u = s ++ t ++ u.
Proof. induction s as [|c s IH]; intros; simpl; congruence. Qed.

Lemma length_append : forall s t : string,
    String.length (s ++ t) = String.length s + String.length t.
Proof. induction s as [|c s IH]; intros; simpl; auto. Qed.

Lemma add_stderr_empty : forall s, add_stderr s "" = s.
Proof.
  intros [c f o e]. unfold add_stderr. simpl. now rewrite append_empty_r.
Qed.

Lemma skipn_nth_error_some : forall (l : list string) i x,
    nth_error l i = Some x -> skipn i l = x :: skipn (S i) l.
Proof.
  induction l as [|y l IH]; intros [|i] x H; simpl in *; try discriminate.
  - congruence.
  - now apply IH.
Qed.

Lemma skipn_nth_error_none : forall (l : list string) i,
    nth_error l i = None -> skipn i l = [].
Proof.
  intros l i H. apply skipn_all2. now apply nth_error_None.
Qed.

(** The index loop of the source visits the groups that the left-to-right
    scan of the specification forms, and updates its locals accordingly. *)
Lemma redirection_loop_items : forall fuel command_parts i v,
    List.length (skipn i command_parts) <= fuel ->
    redirection_loop fuel command_parts i v
    = fold_left apply_item (items (skipn i command_parts)) v.
Proof.
  induction fuel as [|fuel IH]; intros parts i v Hlen.
  - destruct (skipn i parts); [reflexivity|simpl in Hlen; lia].
  - cbn [redirection_loop].
    destruct (nth_error parts i) as [part|] eqn:E.
    2:{ now rewrite (skipn_nth_error_none _ _ E). }
    rewrite (skipn_nth_error_some _ _ _ E) in *. cbn [List.length] in Hlen.
    replace (i + 1) with (S i) by lia.
    cbn [items]. unfold directive.
    assert (Hrest : forall w,
               redirection_loop fuel parts (S i) w
               = fold_left apply_item (items (skipn (S i) parts)) w).
    { intros w. apply IH. lia. }
    assert (Hnext : forall f w,
               nth_error parts (S i) = Some f ->
               redirection_loop fuel parts (S i + 1) w
               = fold_left apply_item (items (skipn (S (S i)) parts)) w).
    { intros f w Hf. replace (S i + 1) with (S (S i)) by lia. apply IH.
      rewrite (skipn_nth_error_some _ _ _ Hf) in Hlen.
      cbn [List.length] in Hlen. lia. }
    destruct (nth_error parts (S i)) as [f|] eqn:E2.
    + rewrite (skipn_nth_error_some _ _ _ E2).
      destruct (str_in part [">"; "1>"]); [now rewrite (Hnext f)|].
      destruct (str_in part [">>"; "1>>"]); [now rewrite (Hnext f)|].
      destruct (part =? "2>"); [now rewrite (Hnext f)|].
      destruct (part =? "2>>"); [now rewrite (Hnext f)|].
      now rewrite Hrest, (skipn_nth_error_some _ _ _ E2).
    + rewrite (skipn_nth_error_none _ _ E2) in *.
      destruct (str_in part [">"; "1>"]); [now rewrite Hrest|].
      destruct (str_in part [">>"; "1>>"]); [now rewrite Hrest|].
      destruct (part =? "2>"); [now rewrite Hrest|].
      destruct (part =? "2>>"); [now rewrite Hrest|].
      now rewrite Hrest.
Qed.

Lemma redirection_scan_items : forall command_parts,
    redirection_scan command_parts
    = fold_left apply_item (items command_parts) initial_locals.
Proof.
  intros parts. unfold redirection_scan.
  now rewrite redirection_loop_items by (simpl; lia).
Qed.

(** What a sequence of items leaves in each local. *)
Lemma fold_items_locals : forall its v,
    let v' := fold_left apply_item its v in
    clean_command v' = (clean_command v ++ words its)%list
    /\ (output_file v', append_output v')
       = last_redirect Out (output_file v, append_output v) its
    /\ (error_file v', append_error v')
       = last_redirect Err (error_file v, append_error v) its
    /\ printed v' = printed v ++ complaints its.
Proof.
  induction its as [|it its IH]; intros v; cbn zeta.
  - simpl. rewrite app_nil_r, append_empty_r. auto.
  - cbn [fold_left]. specialize (IH (apply_item v it)). cbn zeta in IH.
    destruct IH as (Hc & Ho & He & Hp).
    rewrite Hc, Ho, He, Hp.
    destruct it as [w|[|] app file|st]; simpl;
      rewrite <- ?app_assoc, ?append_assoc; auto.
Qed.

Lemma handle_redirection_items : forall command_parts s,
    let its := items command_parts in
    handle_redirection command_parts s
    = Val (words its,
           fst (last_redirect Out (None, false) its),
           snd (last_redirect Out (None, false) its),
           fst (last_redirect Err (None, false) its),
           snd (last_redirect Err (None, false) its))
          (add_stderr s (complaints its)).
Proof.
  intros parts s its. unfold handle_redirection, bind, sys_stderr_write, ret.
  rewrite redirection_scan_items. fold its.
  destruct (fold_items_locals its initial_locals) as (Hc & Ho & He & Hp).
  cbn zeta in *. rewrite Hc, Hp. simpl.
  change (@None string, false)
    with (output_file initial_locals, append_output initial_locals) at 1 2.
  rewrite <- Ho.
  change (@None string, false)
    with (error_file initial_locals, append_error initial_locals).
  rewrite <- He. reflexivity.
Qed.

Lemma missing_not_empty : forall st rest, missing st ++ nl ++ rest <> "".
Proof. intros [|] rest; discriminate. Qed.

(** A prefix that leaves no directive waiting for its filename is scanned
    on its own: what follows it is grouped independently. *)
Lemma items_app : forall pre rest,
    complaints (items pre) = "" ->
    items (pre ++ rest)%list = (items pre ++ items rest)%list.
Proof.
  intros pre. remember (List.length pre) as n eqn:Hn.
  revert pre Hn. induction n as [n IH] using lt_wf_ind.
  intros [|part pre] Hn rest Hc; [reflexivity|].
  cbn [items List.app] in *.
  destruct (directive part) as [[st ap]|].
  - destruct pre as [|file pre].
    + exfalso. simpl in Hc. now apply missing_not_empty in Hc.
    + cbn [List.app complaints] in *.
      rewrite (IH (List.length pre)) by (simpl in Hn; auto; lia).
      reflexivity.
  - cbn [complaints] in Hc.
    rewrite (IH (List.length pre)) by (simpl in Hn; auto; lia).
    reflexivity.
Qed.

(** C2.  [handle_redirection] scans the tokens left to right; a directive
    token met by the scan and followed by a token takes that token as its
    filename, and neither reaches the clean tokens; every other token is
    appended to the clean tokens in its original order; for each stream the
    last directive decides the file and the append flag.  On
    [["echo"; "hi"; ">"; "out.txt"]] the clean tokens are [["echo"; "hi"]],
    the output target is ["out.txt"] and the append flag is false. *)
Theorem handle_redirection_scans_left_to_right :
  (forall command_parts s,
      let its := items command_parts in
      handle_redirection command_parts s
      = Val (words its,
             fst (last_redirect Out (None, false) its),
             snd (last_redirect Out (None, false) its),
             fst (last_redirect Err (None, false) its),
             snd (last_redirect Err (None, false) its))
            (add_stderr s (complaints its)))
  /\ (forall s,
         handle_redirection ["echo"; "hi"; ">"; "out.txt"] s
         = Val (["echo"; "hi"], Some "out.txt", false, None, false) s).
Proof.
  split.
  - exact handle_redirection_items.
  - intros s. rewrite handle_redirection_items. simpl.
    now rewrite add_stderr_empty.
Qed.



Example trailing_directive_sample :
  handle_redirection ["echo"; "hi"; ">"; "f"; "2>>"] Samples.start
  = Val (["echo"; "hi"], Some "f", false, None, false)
        (add_stderr Samples.start
           ("Syntax error: Missing file for error redirection" ++ nl)).
Proof. reflexivity. Qed.

(** Words keep their order and the last directive of each stream wins. *)
Example last_directive_wins :
  handle_redirection
    ["a"; ">"; "f1"; "b"; "1>>"; "f2"; "2>>"; "e1"; "c"; "2>"; "e2"]
    Samples.start
  = Val (["a"; "b"; "c"], Some "f2", true, Some "e2", false) Samples.start.
Proof. reflexivity. Qed.

(** A directive token that follows another directive is that directive's
    filename, not a directive. *)
Example directive_as_filename :
  handle_redirection [">"; ">"; "f"] Samples.start
  = Val (["f"], Some ">", false, None, false) Samples.start.
Proof. reflexivity. Qed.

End Redirection.

(** ** Tokenizer: quoting *)

Section Quoting.
Import PyStr Shlex Shell Spec Notions.

Lemma snoc_append : forall tok c rest,
    snoc tok c ++ rest = tok ++ String c rest.
Proof. intros. unfold snoc. now rewrite append_assoc. Qed.

(** Between quotes the [quoted] flag is set by the next iteration,
    whatever it reads. *)
Lemma quote_state_sets_quoted : forall x rest q tok quoted es,
    read_token_loop (String x rest) (Squote q) tok quoted es
    = read_token_loop (String x rest) (Squote q) tok true es.
Proof. reflexivity. Qed.

(** A run of characters that stand for themselves between quotes is
    appended to the token. *)
Lemma quote_run : forall body rest q tok es,
    all_chars (quotable q) body = true ->
    read_token_loop (body ++ rest) (Squote q) tok true es
    = read_token_loop rest (Squote q) (tok ++ body) true es.
Proof.
  induction body as [|c body IH]; intros rest q tok es H.
  - now rewrite append_empty_r.
  - cbn [all_chars] in H. apply andb_prop in H. destruct H as [Hc Hb].
    unfold quotable in Hc. apply andb_prop in Hc. destruct Hc as [H1 H2].
    cbn [append read_token_loop].
    apply negb_true_iff in H1, H2. rewrite H1, H2.
    rewrite IH by exact Hb. now rewrite snoc_append.
Qed.

(** A run of plain characters inside a word is appended to the token. *)
Lemma word_run : forall w rest tok quoted es,
    all_chars plain_char w = true ->
    read_token_loop (w ++ rest) Sword tok quoted es
    = read_token_loop rest Sword (tok ++ w) quoted es.
Proof.
  induction w as [|c w IH]; intros rest tok quoted es H.
  - now rewrite append_empty_r.
  - cbn [all_chars] in H. apply andb_prop in H. destruct H as [Hc Hw].
    unfold plain_char in Hc. apply negb_true_iff in Hc.
    repeat (apply orb_false_elim in Hc; destruct Hc as [Hc ?]).
    cbn [append read_token_loop].
    repeat match goal with H : char_in c _ = false |- _ => rewrite H end.
    rewrite IH by exact Hw. now rewrite snoc_append.
Qed.

(** One well-formed word at the start of a token: the lexer is inside a
    word, holding the word's content, when it reaches what follows. *)
Lemma read_word : forall w rest,
    well_formed w = true ->
    read_token (render w ++ rest) Sspace
    = read_token_loop rest Sword (content w) (is_quoted w) Sspace.
Proof.
  intros [w|q body] rest H; unfold read_token; cbn [render content is_quoted].
  - unfold well_formed, plain_word in H. apply andb_prop in H.
    destruct H as [Hne Hall]. destruct w as [|c w]; [discriminate|].
    pose proof Hall as Hall'.
    cbn [all_chars] in Hall. apply andb_prop in Hall.
    destruct Hall as [Hc Hw].
    unfold plain_char in Hc. apply negb_true_iff in Hc.
    repeat (apply orb_false_elim in Hc; destruct Hc as [Hc ?]).
    cbn [append read_token_loop].
    repeat match goal with H : char_in c _ = false |- _ => rewrite H end.
    now rewrite word_run.
  - cbn [well_formed] in H. apply andb_prop in H. destruct H as [Hq Hb].
    assert (Hq' : q = "'"%char \/ q = dquote).
    { unfold quotes in Hq. cbn [char_in] in Hq.
      rewrite orb_false_r in Hq. apply orb_prop in Hq.
      destruct Hq as [Hq|Hq]; apply Ascii.eqb_eq in Hq; auto. }
    cbn [append].
    replace (read_token_loop (String q ((body ++ String q "") ++ rest))
                             Sspace "" false Sspace)
      with (read_token_loop ((body ++ String q "") ++ rest) (Squote q) ""
                            false Sspace)
      by (destruct Hq' as [-> | ->]; reflexivity).
    rewrite append_assoc. cbn [append].
    destruct body as [|c body].
    + cbn [append read_token_loop]. now rewrite Ascii.eqb_refl.
    + cbn [append]. rewrite quote_state_sets_quoted.
      change (String c (body ++ String q rest))
        with (String c body ++ String q rest).
      rewrite quote_run by exact Hb.
      cbn [read_token_loop]. now rewrite Ascii.eqb_refl.
Qed.

Lemma content_emitted : forall w,
    well_formed w = true ->
    have_token (content w) (is_quoted w) = true
    /\ emit (content w) (is_quoted w) = Some (content w).
Proof.
  intros [w|q body] H; [|split; [apply orb_true_r|reflexivity]].
  unfold well_formed, plain_word in H. apply andb_prop in H.
  destruct H as [Hne _]. cbn [content is_quoted].
  unfold have_token, emit. apply negb_true_iff in Hne. rewrite Hne.
  split; reflexivity.
Qed.

(** A line of well-formed words separated by single spaces is split into
    the contents of its words. *)
Lemma tokens_of_words : forall ws fuel,
    forallb well_formed ws = true ->
    List.length ws + 1 < fuel ->
    tokens fuel (join " " (map render ws)) Sspace
    = Some (inr (map content ws)).
Proof.
  induction ws as [|w ws IH]; intros fuel Hwf Hfuel.
  - destruct fuel; [simpl in Hfuel; lia|reflexivity].
  - cbn [forallb] in Hwf. apply andb_prop in Hwf. destruct Hwf as [Hw Hws].
    destruct (content_emitted w Hw) as [Hh He].
    destruct fuel as [|fuel]; [lia|]. cbn [List.length] in Hfuel.
    cbn [tokens map]. unfold join. cbn [String.concat].
    destruct ws as [|w' ws].
    + cbn [map]. rewrite <- (append_empty_r (render w)).
      rewrite read_word by exact Hw.
      cbn [read_token_loop]. rewrite He.
      destruct fuel as [|fuel]; [simpl in Hfuel; lia|]. reflexivity.
    + cbn [map]. rewrite read_word by exact Hw.
      cbn [append read_token_loop char_in whitespace Ascii.eqb Bool.eqb orb].
      rewrite Hh, He.
      change (String.concat " " (map render (w' :: ws)))
        with (join " " (map render (w' :: ws))).
      rewrite IH; [reflexivity|exact Hws|simpl in *; lia].
Qed.

Lemma split_words_of_line : forall ws,
    forallb well_formed ws = true ->
    split (join " " (map render ws)) = inr (map content ws).
Proof.
  intros ws H.
  apply (split_from_tokens (List.length ws + 2)).
  apply tokens_of_words; [exact H|lia].
Qed.

Lemma quote_run_then : forall body x rest q tok quoted es,
    all_chars (quotable q) body = true ->
    read_token_loop (body ++ String x rest) (Squote q) tok quoted es
    = read_token_loop (String x rest) (Squote q) (tok ++ body) true es.
Proof.
  intros [|c body] x rest q tok quoted es H.
  - cbn [append]. rewrite append_empty_r. apply quote_state_sets_quoted.
  - change (String c body ++ String x rest)
      with (String c (body ++ String x rest)).
    rewrite quote_state_sets_quoted.
    change (String c (body ++ String x rest))
      with (String c body ++ String x rest).
    now apply quote_run.
Qed.

(** A backslash between double quotes, followed by [c]. *)
Lemma escape_in_dquotes : forall c rest tok es,
    read_token_loop (String backslash (String c rest)) (Squote dquote) tok
                    true es
    = read_token_loop rest (Squote dquote) (tok ++ escaped_in_dquotes c) true
                      (Squote dquote).
Proof.
  intros c rest tok es. cbn [read_token_loop].
  change (Ascii.eqb backslash dquote) with false.
  change (char_in backslash escape && char_in dquote escapedquotes) with true.
  cbv iota. cbn [in_quotes differs andb]. unfold escaped_in_dquotes.
  change backslash with "092"%char. change dquote with "034"%char.
  destruct (Ascii.eqb c "092"); destruct (Ascii.eqb c "034");
    cbn [negb andb orb]; unfold snoc; now rewrite ?append_assoc.
Qed.

(** C7 does not hold as stated: between double quotes the backslash before
    [$] stays in the token. *)
Lemma backslash_dollar_in_dquotes_is_kept :
  split (String dquote ("a\$b" ++ String dquote "")) = inr ["a\$b"]
  /\ split (String dquote ("a\$b" ++ String dquote "")) <> inr ["a$b"].
Proof. split; [reflexivity|discriminate]. Qed.

(** C7, amended.  In the tokenizer, between double quotes a backslash
    escapes, and is removed before, exactly the two characters double quote
    and backslash; before any other character, [$] included, it is a
    literal character and stays in the token together with the character
    that follows it. *)
Theorem backslash_between_double_quotes : forall p c q,
    all_chars (quotable dquote) p = true ->
    all_chars (quotable dquote) q = true ->
    split (String dquote
             (p ++ String backslash (String c (q ++ String dquote ""))))
    = inr [p ++ escaped_in_dquotes c ++ q]
    /\ escaped_in_dquotes c
       = if Ascii.eqb c dquote || Ascii.eqb c backslash
         then String c ""
         else String backslash (String c "").
Proof.
  intros p c q Hp Hq. split; [|reflexivity].
  apply (split_from_tokens 2). cbn [tokens]. unfold read_token.
  assert (Hopen : forall rest,
             read_token_loop (String dquote rest) Sspace "" false Sspace
             = read_token_loop rest (Squote dquote) "" false Sspace)
    by reflexivity.
  rewrite Hopen, quote_run_then by exact Hp.
  rewrite escape_in_dquotes, quote_run_then by exact Hq.
  cbn [read_token_loop append]. rewrite Ascii.eqb_refl.
  cbn [emit negb andb]. now rewrite append_assoc.
Qed.

Lemma backslash_between_double_quotes_witness :
  split (String dquote
           ("a" ++ String backslash (String "$" ("b" ++ String dquote ""))))
  = inr ["a" ++ escaped_in_dquotes "$" ++ "b"].
Proof.
  apply (backslash_between_double_quotes "a" "$" "b"); reflexivity.
Defined.

(** The two escapes that double quotes do honour. *)
Example backslash_escapes_in_dquotes :
  split (String dquote
           ("a" ++ String backslash (String dquote ("b" ++ String dquote ""))))
  = inr ["a" ++ String dquote "b"]
  /\ split (String dquote ("a\\b" ++ String dquote "")) = inr ["a\b"]
  /\ split (String dquote ("a\nb" ++ String dquote "")) = inr ["a\nb"].
Proof. repeat split. Qed.

Lemma directive_cases : forall d st ap,
    directive d = Some (st, ap) ->
    In d [">"; "1>"; ">>"; "1>>"; "2>"; "2>>"].
Proof.
  intros d st ap H. unfold directive, str_in in H. cbn [existsb] in H.
  repeat match type of H with
         | (if ?b then _ else _) = _ =>
             let E := fresh "E" in destruct b eqn:E
         end; try discriminate;
    repeat match goal with
           | E : _ || _ = true |- _ => apply orb_prop in E; destruct E as [E|E]
           | E : (_ =? _) = true |- _ => apply String.eqb_eq in E; subst
           | E : false = true |- _ => discriminate
           end; simpl; auto 10.
Qed.

Lemma directive_well_formed : forall d st ap q,
    directive d = Some (st, ap) ->
    char_in q quotes = true ->
    well_formed (Quoted q d) = true /\ well_formed (Bare d) = true.
Proof.
  intros d st ap q Hd Hq.
  assert (Hq' : q = "'"%char \/ q = "034"%char).
  { unfold quotes in Hq. cbn [char_in] in Hq.
    rewrite orb_false_r in Hq. apply orb_prop in Hq.
    destruct Hq as [Hq|Hq]; apply Ascii.eqb_eq in Hq; auto. }
  apply directive_cases in Hd. cbn [In] in Hd.
  destruct Hq' as [-> | ->];
    repeat (destruct Hd as [<- | Hd]; [split; reflexivity|]);
    contradiction.
Qed.

Lemma forallb_middle : forall (before after : list word) w,
    forallb well_formed before = true ->
    forallb well_formed after = true ->
    well_formed w = true ->
    forallb well_formed (before ++ w :: after)%list = true.
Proof.
  intros before after w Hb Ha Hw. rewrite forallb_app. cbn [forallb].
  now rewrite Hb, Hw, Ha.
Qed.

(** The line [echo '>' f] redirects an empty [echo] into [f] and prints
    nothing. *)
Example echo_quoted_operator_session :
  main Samples.bare [Line "echo '>' f"] Samples.start
  = (SystemExit 0, mkState "/home/u" [("/home/u/f", nl)] "$ $ " "").
Proof. reflexivity. Qed.

Example echo_dquoted_append_operator_session :
  main Samples.bare
       [Line ("echo hi " ++ String dquote ("2>>" ++ String dquote " f"))]
       Samples.start
  = (SystemExit 0, mkState "/home/u" [] ("$ hi" ++ nl ++ "$ ") "").
Proof. reflexivity. Qed.

End Quoting.

(** ** The read-execute loop *)

Section Session.
Import PyStr Shlex Shell Spec Notions.

Lemma add_stdout_add_stdout : forall s a b,
    add_stdout (add_stdout s a) b = add_stdout s (a ++ b).
Proof. intros. unfold add_stdout. simpl. now rewrite append_assoc. Qed.

Lemma add_stderr_add_stderr : forall s a b,
    add_stderr (add_stderr s a) b = add_stderr s (a ++ b).
Proof. intros. unfold add_stderr. simpl. now rewrite append_assoc. Qed.

(** One line, from [input()] to the dispatch on its clean tokens. *)
Lemma loop_body_line : forall os text s,
    loop_body os (Some (Line text)) s
    = if strip text =? "" then Val tt s
      else match Shlex.split (strip text) with
           | inl e => Val tt (add_stderr s ("Parsing error: " ++ e ++ nl))
           | inr [] => Val tt s
           | inr ts =>
               let its := items ts in
               let s' := add_stderr s (complaints its) in
               match words its with
               | [] => Val tt s'
               | clean =>
                   dispatch os clean
                     (fst (last_redirect Out (None, false) its))
                     (snd (last_redirect Out (None, false) its))
                     (fst (last_redirect Err (None, false) its))
                     (snd (last_redirect Err (None, false) its)) s'
               end
           end.
Proof.
  intros os text s. unfold loop_body. unfold bind at 1. cbn [input ret].
  destruct (strip text =? ""); [reflexivity|].
  unfold bind at 1. unfold parse_input.
  destruct (Shlex.split (strip text)) as [e|[|t ts]].
  - unfold bind, print_err, sys_stderr_write, ret. now rewrite append_assoc.
  - reflexivity.
  - unfold ret at 1. unfold bind at 1. rewrite handle_redirection_items.
    cbn zeta. destruct (words (items (t :: ts))); reflexivity.
Qed.

Lemma rstrip_unspaced : forall s, ends_unspaced s = true -> rstrip s = s.
Proof.
  induction s as [|c s IH]; intros H; [discriminate|].
  cbn [rstrip]. destruct s as [|d s].
  - cbn in H |- *. apply negb_true_iff in H. now rewrite H.
  - rewrite IH by exact H. reflexivity.
Qed.

Lemma strip_unspaced : forall s,
    starts_unspaced s = true -> ends_unspaced s = true ->
    strip s = s /\ s <> "".
Proof.
  intros [|c s] Hs He; [discriminate|]. split; [|discriminate].
  unfold strip. cbn [lstrip]. cbn in Hs. apply negb_true_iff in Hs.
  rewrite Hs. now apply rstrip_unspaced.
Qed.

Lemma ends_unspaced_append : forall s t,
    ends_unspaced t = true -> ends_unspaced (s ++ t) = true.
Proof.
  induction s as [|c s IH]; intros t H; [exact H|].
  cbn [append ends_unspaced].
  destruct (s ++ t) eqn:E.
  - destruct s, t; try discriminate.
  - rewrite <- E. now apply IH.
Qed.

Lemma plain_char_unspaced : forall c, plain_char c = true -> isspace c = false.
Proof.
  intros c H. unfold plain_char in H. apply negb_true_iff in H.
  do 3 (apply orb_false_elim in H; destruct H as [H _]). exact H.
Qed.

Lemma quote_unspaced : forall q, char_in q quotes = true -> isspace q = false.
Proof.
  intros q H. unfold quotes in H. cbn [char_in] in H.
  rewrite orb_false_r in H. apply orb_prop in H.
  destruct H as [H|H]; apply Ascii.eqb_eq in H; subst; reflexivity.
Qed.

Lemma plain_ends_unspaced : forall w,
    w <> "" -> all_chars plain_char w = true -> ends_unspaced w = true.
Proof.
  induction w as [|c w IH]; intros Hne H; [congruence|].
  cbn [all_chars] in H. apply andb_prop in H. destruct H as [Hc Hw].
  cbn [ends_unspaced]. destruct w as [|d w].
  - now rewrite plain_char_unspaced.
  - apply IH; [discriminate|exact Hw].
Qed.

Lemma render_unspaced : forall w,
    well_formed w = true ->
    starts_unspaced (render w) = true /\ ends_unspaced (render w) = true.
Proof.
  intros [w|q body] H.
  - unfold well_formed, plain_word in H. apply andb_prop in H.
    destruct H as [Hne Hall]. cbn [render].
    destruct w as [|c w]; [discriminate|]. split.
    + cbn [all_chars] in Hall. apply andb_prop in Hall.
      cbn. now rewrite plain_char_unspaced.
    + apply plain_ends_unspaced; [discriminate|exact Hall].
  - cbn [well_formed] in H. apply andb_prop in H. destruct H as [Hq _].
    apply quote_unspaced in Hq. cbn [render]. split.
    + cbn. now rewrite Hq.
    + change (String q (body ++ String q ""))
        with (String q body ++ String q "").
      apply ends_unspaced_append. cbn. now rewrite Hq.
Qed.

Lemma line_unspaced : forall ws,
    forallb well_formed ws = true -> ws <> [] ->
    starts_unspaced (join " " (map render ws)) = true
    /\ ends_unspaced (join " " (map render ws)) = true.
Proof.
  induction ws as [|w ws IH]; intros H Hne; [congruence|].
  cbn [forallb] in H. apply andb_prop in H. destruct H as [Hw Hws].
  destruct (render_unspaced w Hw) as [Hs He].
  unfold join. cbn [map String.concat]. destruct ws as [|w' ws].
  - cbn [map]. auto.
  - cbn [map]. split.
    + destruct (render w); [discriminate|exact Hs].
    + change (String.concat " " (render w' :: map render ws))
        with (join " " (map render (w' :: ws))).
      rewrite <- append_assoc. apply ends_unspaced_append.
      apply IH; [exact Hws|discriminate].
Qed.

(** A line of well-formed words reaches the dispatch with the contents of
    its words scanned for redirections. *)
Lemma loop_body_words : forall os ws s,
    forallb well_formed ws = true -> ws <> [] ->
    loop_body os (Some (Line (join " " (map render ws)))) s
    = let its := items (map content ws) in
      let s' := add_stderr s (complaints its) in
      match words its with
      | [] => Val tt s'
      | clean =>
          dispatch os clean
                   (fst (last_redirect Out (None, false) its))
                   (snd (last_redirect Out (None, false) its))
                   (fst (last_redirect Err (None, false) its))
                   (snd (last_redirect Err (None, false) its)) s'
      end.
Proof.
  intros os ws s H Hne. rewrite loop_body_line.
  destruct (line_unspaced ws H Hne) as [Hs He].
  destruct (strip_unspaced _ Hs He) as [-> Hn].
  apply String.eqb_neq in Hn. rewrite Hn.
  rewrite split_words_of_line by exact H.
  destruct ws as [|w ws]; [congruence|]. reflexivity.
Qed.

Lemma items_of_words : forall l,
    forallb no_directive l = true -> items l = map Word l.
Proof.
  induction l as [|t l IH]; intros H; [reflexivity|].
  cbn [forallb] in H. apply andb_prop in H. destruct H as [Ht Hl].
  unfold no_directive in Ht. cbn [items map].
  destruct (directive t); [discriminate|]. now rewrite IH.
Qed.

Lemma scan_of_words : forall l,
    words (map Word l) = l
    /\ complaints (map Word l) = ""
    /\ forall st cur, last_redirect st cur (map Word l) = cur.
Proof.
  induction l as [|t l (Hw & Hc & Hl)]; [repeat split|].
  cbn [map words complaints last_redirect]. rewrite Hw.
  repeat split; auto.
Qed.

Lemma bare_words : forall l,
    map render (map Bare l) = l /\ map content (map Bare l) = l
    /\ forallb well_formed (map Bare l) = forallb plain_word l.
Proof.
  induction l as [|t l (Hr & Hc & Hw)]; [repeat split|].
  cbn [map forallb render content well_formed]. rewrite Hr, Hc, Hw.
  repeat split.
Qed.

(** A line of plain words without redirection operators is dispatched as
    it stands, with no redirection. *)
Lemma loop_body_plain_words : forall os l s,
    forallb plain_word l = true ->
    forallb no_directive l = true ->
    l <> [] ->
    loop_body os (Some (Line (join " " l))) s
    = dispatch os l None false None false s.
Proof.
  intros os l s Hp Hd Hne.
  destruct (bare_words l) as (Hr & Hc & Hw).
  rewrite <- Hr at 1. rewrite loop_body_words.
  - rewrite Hc, items_of_words by exact Hd. cbv zeta.
    destruct (scan_of_words l) as (H1 & H2 & H3).
    rewrite H1, H2, !H3, add_stderr_empty.
    destruct l; [congruence|reflexivity].
  - now rewrite Hw.
  - destruct l; [congruence|discriminate].
Qed.

(** The loop goes on to the next line exactly when the body of the [try]
    returns, or raises [KeyboardInterrupt]. *)
Lemma main_line : forall os ev rest s,
    main os (ev :: rest) s
    = match loop_body os (Some ev) (add_stdout s "$ ") with
      | Val _ s' => main os rest s'
      | Exc KeyboardInterrupt s' => main os rest (add_stdout s' nl)
      | Exc EOFError s' => (SystemExit 0, s')
      | Exc e s' => (e, s')
      end.
Proof.
  intros os ev rest s. cbn [main]. unfold iteration, bind, sys_stdout_write.
  unfold try_except.
  destruct (loop_body os (Some ev) (add_stdout s "$ ")) as [[] s'|[] s'];
    reflexivity.
Qed.

(** End of input ends the session with status 0. *)
Lemma iteration_eof : forall os s,
    iteration os None s = Exc (SystemExit 0) (add_stdout s "$ ").
Proof. reflexivity. Qed.

Lemma main_eof : forall os s,
    main os [] s = (SystemExit 0, add_stdout s "$ ").
Proof. reflexivity. Qed.

End Session.

Ltac eval_closed t := let v := eval vm_compute in t in change t with v.

(** Evaluates the tokenizer and the redirection scan on the concrete line
    at the head of the input. *)
Ltac run_line :=
  rewrite main_line, loop_body_line;
  match goal with
  | |- context [PyStr.strip ?t] => eval_closed (PyStr.strip t)
  end;
  cbn [String.eqb Ascii.eqb Bool.eqb];
  match goal with
  | |- context [Shlex.split ?t] => eval_closed (Shlex.split t)
  end;
  cbv iota beta;
  match goal with
  | |- context [Spec.items ?t] => eval_closed (Spec.items t)
  end;
  cbv zeta;
  cbn [Spec.words Spec.complaints Spec.last_redirect Spec.stream_eqb fst snd];
  rewrite ?add_stderr_empty.

(** Unfolds the monadic plumbing of a dispatch on given tokens. *)
Ltac munfold :=
  cbv beta iota zeta delta
      [Shell.dispatch Shell.bind Shell.ret Shell.raise Shell.index
       Shell.write_to Shell.open Shell.file_write Shell.sys_exit Shell.print
       Shell.print_err Shell.sys_stdout_write Shell.sys_stderr_write
       Shell.os_getcwd Shell.os_chdir Shell.os_path_abspath
       Shell.find_executable Shell.os_path_isfile Shell.os_access_X_OK
       Shell.change_directory Shell.try_except
       Shell.execute_quoted_executable];
  cbn.

(** ** Errors that leave the loop *)

Section Propagation.
Import PyStr Shell Spec Notions.

(** C1 (the code departs from it).  The line [type], with no argument,
    raises [IndexError] at [command_parts[1]]; the [try] of [main] handles
    only [EOFError] and [KeyboardInterrupt], so the exception leaves
    [main]: the session ends there, nothing is reported by the shell, and
    the lines that follow are never read. *)
Theorem type_without_argument_ends_session : forall os rest s,
    main os (Line "type" :: rest) s
    = (IndexError "list index out of range", add_stdout s "$ ").
Proof. intros. run_line. reflexivity. Qed.

(** The same happens when [echo] or [pwd] cannot open its redirection
    target, ... *)
Lemma echo_unopenable_target_ends_session : forall os rest s k detail,
    open_error os (cwd s) "f" = Some (k, detail) ->
    main os (Line "echo hi > f" :: rest) s
    = (os_exn k detail, add_stdout s "$ ").
Proof.
  intros os rest s k detail H. run_line.
  munfold. rewrite H. destruct k; reflexivity.
Qed.

(** ... and when [cd] without argument cannot enter the home directory,
    although [change_directory] handles the same failures. *)
Lemma cd_home_failure_ends_session : forall os rest s k detail,
    chdir os (cwd s) (environ_get_HOME os) = inl (k, detail) ->
    main os (Line "cd" :: rest) s = (os_exn k detail, add_stdout s "$ ").
Proof.
  intros os rest s k detail H. run_line.
  munfold. rewrite H. destruct k; reflexivity.
Qed.

End Propagation.

(** ** The [exit] built-in *)

Section Exit.
Import PyStr Shell Spec Notions.

Lemma os_exn_not_exit : forall k detail code, os_exn k detail <> SystemExit code.
Proof. intros [] detail code; discriminate. Qed.

Lemma no_exit_ret : forall A (a : A), no_exit (ret a).
Proof. intros A a s code s'. discriminate. Qed.

Lemma no_exit_bind : forall A B (m : M A) (k : A -> M B),
    no_exit m -> (forall a, no_exit (k a)) -> no_exit (bind m k).
Proof.
  intros A B m k Hm Hk s code s'. unfold bind.
  destruct (m s) as [a s1|e s1] eqn:E.
  - apply Hk.
  - intros H. inversion H; subst. exact (Hm _ _ _ E).
Qed.

Lemma no_exit_try_except : forall A (body : M A) handler,
    no_exit body ->
    (forall e h, handler e = Some h -> no_exit h) ->
    no_exit (try_except body handler).
Proof.
  intros A body handler Hb Hh s code s'. unfold try_except.
  destruct (body s) as [a s1|e s1] eqn:E; [discriminate|].
  destruct (handler e) as [h|] eqn:Eh.
  - exact (Hh _ _ Eh _ _ _).
  - intros H. inversion H; subst. exact (Hb _ _ _ E).
Qed.

Lemma no_exit_index : forall l i, no_exit (index l i).
Proof.
  intros l i s code s'. unfold index.
  destruct (nth_error l i); discriminate.
Qed.

Lemma no_exit_write : forall text,
    no_exit (sys_stdout_write text) /\ no_exit (sys_stderr_write text)
    /\ no_exit (print text) /\ no_exit (print_err text).
Proof. repeat split; intros s code s'; discriminate. Qed.

Lemma no_exit_open : forall os path m, no_exit (open os path m).
Proof.
  intros os path m s code s'. unfold open.
  destruct (open_error os (cwd s) path) as [[k detail]|]; [|discriminate].
  intros H. inversion H as [[H1 H2]]. exact (os_exn_not_exit _ _ _ H1).
Qed.

Lemma no_exit_file_write : forall t text, no_exit (file_write t text).
Proof. intros [|p] text s code s'; discriminate. Qed.

Lemma no_exit_subprocess_run : forall os argv out err,
    no_exit (subprocess_run os argv out err).
Proof.
  intros os argv out err s code s'. unfold subprocess_run.
  destruct (run os (cwd s) argv) as [o e|k detail|].
  - apply no_exit_bind; [apply no_exit_file_write|intros _].
    apply no_exit_bind; [apply no_exit_file_write|intros _].
    apply no_exit_ret.
  - intros H. inversion H as [[H1 H2]]. exact (os_exn_not_exit _ _ _ H1).
  - discriminate.
Qed.

Lemma no_exit_run_external_command : forall os argv o a e ae,
    no_exit (run_external_command os argv o a e ae).
Proof.
  intros os argv o a e ae. unfold run_external_command.
  apply no_exit_try_except.
  - unfold run_external_try.
    apply no_exit_bind.
    { destruct o as [f|]; [|apply no_exit_ret].
      destruct (truthy (Some f)); [apply no_exit_open|apply no_exit_ret]. }
    intros t1. apply no_exit_bind.
    { destruct e as [f|]; [|apply no_exit_ret].
      destruct (truthy (Some f)); [apply no_exit_open|apply no_exit_ret]. }
    intros t2. apply no_exit_bind; [apply no_exit_subprocess_run|].
    intros r. apply no_exit_bind.
    { destruct (negb (truthy o)); [apply no_exit_write|apply no_exit_ret]. }
    intros _. apply no_exit_bind; [|intros _; apply no_exit_ret].
    destruct (negb (truthy e)); [apply no_exit_write|apply no_exit_ret].
  - intros ex h Hh. unfold run_external_except in Hh.
    destruct ex; simpl in Hh; inversion Hh; subst;
      try (apply no_exit_bind; [apply no_exit_index|intros c0]);
      apply no_exit_write.
Qed.

Lemma no_exit_execute_quoted_executable : forall os argv o a e ae,
    no_exit (execute_quoted_executable os argv o a e ae).
Proof.
  intros os argv o a e ae. unfold execute_quoted_executable.
  apply no_exit_bind; [apply no_exit_index|intros p].
  apply no_exit_bind; [intros s code s'; discriminate|intros isf].
  apply no_exit_bind.
  { destruct isf; intros s code s'; discriminate. }
  intros [|]; [apply no_exit_run_external_command|].
  apply no_exit_bind; [apply no_exit_index|intros c0].
  apply no_exit_bind; [intros s code s'; discriminate|intros [r|]].
  - destruct (truthy (Some r));
      [apply no_exit_run_external_command|apply no_exit_write].
  - apply no_exit_write.
Qed.

(** With any arguments other than the single ["0"], [exit] is handled by
    the last branch of [main]. *)
Lemma dispatch_exit_other : forall os args o a e ae s,
    args <> ["0"] ->
    dispatch os ("exit" :: args) o a e ae s
    = execute_quoted_executable os ("exit" :: args) o a e ae s.
Proof.
  intros os args o a e ae s Hne. unfold dispatch.
  unfold bind at 1. cbn [index nth_error ret].
  assert (Hc : ((List.length ("exit" :: args) =? 2)%nat
                && (nth 1 ("exit" :: args) "" =? "0")) = false).
  { destruct args as [|x [|y r]]; [reflexivity| |reflexivity].
    cbn [List.length nth Nat.eqb andb].
    apply String.eqb_neq. congruence. }
  change ("exit" =? "exit") with true. cbn [andb]. rewrite Hc.
  reflexivity.
Qed.

(** C3.  The [exit] built-in ends the session, with status 0, if and only
    if the clean tokens are exactly [["exit"; "0"]]; with any other
    arguments the line takes the external-command path of
    [execute_quoted_executable], which never exits.  The line [exit 0]
    ends the session with status 0 whatever lines follow. *)
Theorem exit_only_with_single_argument_0 : forall os args o a e ae s,
    dispatch os ["exit"; "0"] o a e ae s = Exc (SystemExit 0) s
    /\ ((exists code s',
            dispatch os ("exit" :: args) o a e ae s
            = Exc (SystemExit code) s')
        <-> args = ["0"])
    /\ (args <> ["0"] ->
        dispatch os ("exit" :: args) o a e ae s
        = execute_quoted_executable os ("exit" :: args) o a e ae s)
    /\ (forall rest,
           main os (Line "exit 0" :: rest) s
           = (SystemExit 0, add_stdout s "$ ")).
Proof.
  intros os args o a e ae s. split; [reflexivity|]. split; [|split].
  - split.
    + intros (code & s' & H).
      destruct (list_eq_dec string_dec args ["0"]) as [|Hne]; [assumption|].
      rewrite dispatch_exit_other in H by assumption.
      exfalso. exact (no_exit_execute_quoted_executable _ _ _ _ _ _ _ _ _ H).
    + intros ->. exists 0, s. reflexivity.
  - apply dispatch_exit_other.
  - intros rest. run_line. reflexivity.
Qed.

Lemma exit_only_witness :
  dispatch Samples.bare ("exit" :: ["1"]) None false None false Samples.start
  = execute_quoted_executable Samples.bare ("exit" :: ["1"]) None false None
                              false Samples.start.
Proof.
  apply (exit_only_with_single_argument_0
           Samples.bare ["1"] None false None false Samples.start).
  discriminate.
Defined.

(** [exit 1] is looked up as an external command and the session goes
    on. *)
Example exit_1_is_not_found :
  main Samples.bare [Line "exit 1"; Line "exit 0"; Line "pwd"] Samples.start
  = (SystemExit 0,
     mkState "/home/u" [] "$ $ " ("exit: command not found" ++ nl)).
Proof. reflexivity. Qed.

End Exit.

(** ** Built-ins and output redirection *)

Section BuiltinRedirection.
Import PyStr Shell Spec Notions.

(** [echo] writes to the output target when there is one ... *)
Lemma echo_honours_output_redirection : forall os args f app e ae s,
    f <> "" ->
    open_error os (cwd s) f = None ->
    dispatch os ("echo" :: args) (Some f) app e ae s
    = (write_to os f (if app then A else W) (join " " args ++ nl)) s.
Proof.
  intros os args f app e ae s Hf Ho. unfold dispatch.
  unfold bind at 1. cbn [index nth_error ret]. unfold bind at 1.
  cbn. apply String.eqb_neq in Hf. rewrite Hf. reflexivity.
Qed.

(** ... and so does [pwd]. *)
Lemma pwd_honours_output_redirection : forall os args f app e ae s,
    f <> "" ->
    open_error os (cwd s) f = None ->
    dispatch os ("pwd" :: args) (Some f) app e ae s
    = (write_to os f (if app then A else W) (cwd s ++ nl)) s.
Proof.
  intros os args f app e ae s Hf Ho. unfold dispatch.
  unfold bind at 1. cbn [index nth_error ret]. unfold bind at 1.
  cbn. apply String.eqb_neq in Hf. rewrite Hf. reflexivity.
Qed.

(** C5 (the code departs from it).  [type] prints its normal output with
    [print], whatever the output target: on [type cd > out.txt] the text
    "cd is a shell builtin" goes to the session's standard output and no
    file is opened or written. *)
Theorem type_ignores_output_redirection : forall os f app rest s,
    dispatch os ["type"; "cd"] (Some f) app None false s
    = Val tt (add_stdout s ("cd is a shell builtin" ++ nl))
    /\ main os (Line "type cd > out.txt" :: rest) s
       = main os rest (add_stdout s ("$ " ++ "cd is a shell builtin" ++ nl)).
Proof.
  intros os f app rest s. split; [reflexivity|].
  run_line. munfold. now rewrite add_stdout_add_stdout.
Qed.

(** A target with an empty name is not a target for [echo]: the test
    [if output_file] is false for the empty string. *)
Example echo_empty_target_prints :
  forall os s,
    dispatch os ["echo"; "hi"] (Some "") false None false s
    = Val tt (add_stdout s ("hi" ++ nl)).
Proof. reflexivity. Qed.

(** The same for a name found on the search path. *)
Lemma type_path_ignores_output_redirection : forall os name p f app e ae s,
    str_in name BUILTIN_COMMANDS = false ->
    which os (cwd s) name = Some p -> p <> "" ->
    dispatch os ["type"; name] (Some f) app e ae s
    = Val tt (add_stdout s (name ++ " is " ++ p ++ nl)).
Proof.
  intros os name p f app e ae s Hb Hw Hp. munfold. cbn in Hb.
  rewrite Hb, Hw. destruct p; [congruence|]. cbn.
  now rewrite !append_assoc.
Qed.

End BuiltinRedirection.

(** ** [cd] *)

Section ChangeDirectory.
Import PyStr Shell Spec Notions.

Lemma failed_cd_dispatch : forall os path more o a e ae s k detail,
    let shown := if path =? "~" then environ_get_HOME os else path in
    chdir os (cwd s) (abspath os (cwd s) shown) = inl (k, detail) ->
    k <> EOTHER ->
    dispatch os ("cd" :: path :: more) o a e ae s
    = Val tt (add_stderr s ("cd: " ++ shown ++ ": " ++ reason k ++ nl)).
Proof.
  intros os path more o a e ae s k detail shown Hch Hk.
  munfold. fold shown. rewrite Hch.
  destruct k; try congruence; cbn; now rewrite !append_assoc.
Qed.

(** C6.  When [cd] fails on its path argument because the directory is not
    found, is not a directory or may not be entered, the working directory
    is unchanged, [cd: <path>: <reason>] is written to standard error
    (with <path> the home directory when the argument is [~], the argument
    itself otherwise), the command returns normally, and a [pwd] that
    follows prints the directory that was current before the failed [cd].
    On the session: after the line [cd <path>] the loop goes on, and the
    line [pwd] prints the unchanged directory. *)
Theorem failed_cd_keeps_directory :
  forall os path more o a e ae s k detail,
    let shown := if path =? "~" then environ_get_HOME os else path in
    let complaint := "cd: " ++ shown ++ ": " ++ reason k ++ nl in
    chdir os (cwd s) (abspath os (cwd s) shown) = inl (k, detail) ->
    k <> EOTHER ->
    dispatch os ("cd" :: path :: more) o a e ae s
    = Val tt (add_stderr s complaint)
    /\ cwd (add_stderr s complaint) = cwd s
    /\ dispatch os ["pwd"] None false None false (add_stderr s complaint)
       = Val tt (add_stdout (add_stderr s complaint) (cwd s ++ nl))
    /\ (path <> "~" -> shown = path)
    /\ (plain_word path = true -> no_directive path = true ->
        forall rest,
          main os (Line ("cd " ++ path) :: Line "pwd" :: rest) s
          = main os rest
                 (mkState (cwd s) (files s)
                          (stdout s ++ "$ " ++ "$ " ++ cwd s ++ nl)
                          (stderr s ++ complaint))).
Proof.
  intros os path more o a e ae s k detail shown complaint Hch Hk.
  split; [now apply (failed_cd_dispatch os path more o a e ae s k detail)|].
  split; [reflexivity|]. split; [reflexivity|]. split.
  - intros Hp. subst shown. apply String.eqb_neq in Hp. now rewrite Hp.
  - intros Hp Hd rest. rewrite main_line.
    change ("cd " ++ path) with (join " " ["cd"; path]).
    rewrite loop_body_plain_words;
      [|cbn [forallb]; now rewrite Hp|cbn [forallb]; now rewrite Hd
       |discriminate].
    rewrite (failed_cd_dispatch os path [] None false None false
                                (add_stdout s "$ ") k detail Hch Hk).
    fold shown. fold complaint.
    run_line. munfold.
    f_equal. unfold add_stdout, add_stderr. cbn.
    now rewrite !append_assoc.
Qed.

Lemma failed_cd_witness :
  dispatch Samples.bare ("cd" :: "/nonexistent/path" :: []) None false None
           false Samples.start
  = Val tt (add_stderr Samples.start
              ("cd: /nonexistent/path: No such file or directory" ++ nl))
  /\ main Samples.bare
          [Line ("cd " ++ "/nonexistent/path"); Line "pwd"] Samples.start
     = main Samples.bare []
            (mkState "/home/u" [] ("" ++ "$ " ++ "$ " ++ "/home/u" ++ nl)
               ("" ++ "cd: /nonexistent/path: No such file or directory"
                ++ nl)).
Proof.
  destruct (failed_cd_keeps_directory
              Samples.bare "/nonexistent/path" [] None false None false
              Samples.start ENOENT "No such file or directory")
    as (H1 & _ & _ & _ & H5); [reflexivity|discriminate|].
  split; [exact H1|]. apply H5; reflexivity.
Defined.

(** The session of the specification: the failed [cd], then [pwd]. *)
Example cd_nonexistent_then_pwd :
  main Samples.bare [Line "cd /nonexistent/path"; Line "pwd"] Samples.start
  = (SystemExit 0,
     mkState "/home/u" []
             ("$ $ /home/u" ++ nl ++ "$ ")
             ("cd: /nonexistent/path: No such file or directory" ++ nl)).
Proof. reflexivity. Qed.

End ChangeDirectory.

(** ** External commands *)

Section External.
Import PyStr Shell Spec Notions.

(** [execute_quoted_executable] resolves, then runs. *)
Lemma execute_quoted_executable_resolves : forall os c0 args o a e ae s,
    execute_quoted_executable os (c0 :: args) o a e ae s
    = match resolve_external os (cwd s) (c0 :: args) with
      | Some argv => run_external_command os argv o a e ae s
      | None => Val tt (add_stderr s (c0 ++ ": command not found" ++ nl))
      end.
Proof.
  intros os c0 args o a e ae s.
  unfold execute_quoted_executable, resolve_external.
  cbv beta iota zeta delta
      [bind ret index nth_error os_path_isfile os_access_X_OK
       find_executable print_err sys_stderr_write set_first].
  destruct (isfile os (cwd s) c0); cbn [andb].
  - destruct (access_X_OK os (cwd s) c0); [reflexivity|].
    destruct (which os (cwd s) c0) as [r|]; [|now rewrite append_assoc].
    destruct (truthy (Some r)); [reflexivity|now rewrite append_assoc].
  - destruct (which os (cwd s) c0) as [r|]; [|now rewrite append_assoc].
    destruct (truthy (Some r)); [reflexivity|now rewrite append_assoc].
Qed.

(** Names other than the five built-ins reach the last branch of
    [main]. *)
Lemma dispatch_external : forall os c0 args o a e ae s,
    str_in c0 BUILTIN_COMMANDS = false ->
    dispatch os (c0 :: args) o a e ae s
    = execute_quoted_executable os (c0 :: args) o a e ae s.
Proof.
  intros os c0 args o a e ae s Hb. cbn in Hb.
  repeat (apply orb_false_elim in Hb; destruct Hb as [? Hb]).
  unfold dispatch. unfold bind at 1. cbn [index nth_error ret].
  repeat match goal with H : (c0 =? _) = false |- _ => rewrite H; clear H end.
  reflexivity.
Qed.

(** Every exception of class [Exception] raised in the [try] body is
    handled by one of the three clauses. *)
Lemma run_external_command_handles : forall os c0 args o a e ae s ex s1,
    run_external_try os (c0 :: args) o a e ae s = Exc ex s1 ->
    is_Exception ex = true ->
    run_external_command os (c0 :: args) o a e ae s
    = Val tt (add_stderr s1 (diagnostic c0 ex ++ nl)).
Proof.
  intros os c0 args o a e ae s ex s1 Hb He.
  unfold run_external_command, try_except. rewrite Hb.
  destruct ex; try discriminate; reflexivity.
Qed.

Lemma open_target_ok : forall os target m s,
    openable os (cwd s) target ->
    exists t s1,
      (match target with
       | Some f => if truthy target then open os f m else ret PIPE
       | None => ret PIPE
       end) s = Val t s1
      /\ cwd s1 = cwd s /\ stdout s1 = stdout s /\ stderr s1 = stderr s.
Proof.
  intros os [f|] m s H; [|exists PIPE, s; auto].
  destruct (truthy (Some f)); [|exists PIPE, s; auto].
  unfold open. cbn [openable] in H. rewrite H.
  eexists _, _. split; [reflexivity|auto].
Qed.

(** A launch failure surfaces from the [try] body once the redirection
    files have been opened. *)
Lemma run_external_try_launch_failed : forall os argv o a e ae s k detail,
    run os (cwd s) argv = LaunchFailed k detail ->
    openable os (cwd s) o -> openable os (cwd s) e ->
    exists s1,
      run_external_try os argv o a e ae s = Exc (os_exn k detail) s1
      /\ cwd s1 = cwd s /\ stdout s1 = stdout s /\ stderr s1 = stderr s.
Proof.
  intros os argv o a e ae s k detail Hr Ho He. unfold run_external_try.
  destruct (open_target_ok os o (if a then A else W) s Ho)
    as (t1 & s1 & E1 & Hc1 & Ho1 & He1).
  assert (He' : openable os (cwd s1) e) by now rewrite Hc1.
  destruct (open_target_ok os e (if ae then A else W) s1 He')
    as (t2 & s2 & E2 & Hc2 & Ho2 & He2).
  exists s2. split; [|repeat split; congruence].
  unfold bind at 1. rewrite E1. unfold bind at 1. rewrite E2.
  unfold bind at 1. unfold subprocess_run.
  rewrite Hc2, Hc1, Hr. reflexivity.
Qed.

Lemma run_external_try_launch_failed_plain : forall os argv s k detail,
    run os (cwd s) argv = LaunchFailed k detail ->
    run_external_try os argv None false None false s
    = Exc (os_exn k detail) s.
Proof.
  intros os argv s k detail H. unfold run_external_try.
  cbv beta iota zeta delta [bind ret subprocess_run]. cbn [truthy].
  now rewrite H.
Qed.

(** With redirections: the files are opened first, then the launch failure
    is reported in the same way. *)
Lemma launch_failure_with_redirections :
  forall os c0 args a0 argv o a e ae s k detail,
    str_in c0 BUILTIN_COMMANDS = false ->
    resolve_external os (cwd s) (c0 :: args) = Some (a0 :: argv) ->
    run os (cwd s) (a0 :: argv) = LaunchFailed k detail ->
    openable os (cwd s) o ->
    openable os (cwd s) e ->
    exists s1,
      dispatch os (c0 :: args) o a e ae s
      = Val tt (add_stderr s1 (diagnostic a0 (os_exn k detail) ++ nl))
      /\ cwd s1 = cwd s /\ stdout s1 = stdout s /\ stderr s1 = stderr s.
Proof.
  intros os c0 args a0 argv o a e ae s k detail Hb Hr Hl Ho He.
  destruct (run_external_try_launch_failed os (a0 :: argv) o a e ae s k
              detail Hl Ho He) as (s1 & Ht & Hs1).
  exists s1. split; [|exact Hs1].
  rewrite dispatch_external by exact Hb.
  rewrite execute_quoted_executable_resolves, Hr.
  apply run_external_command_handles; [exact Ht|].
  destruct k; reflexivity.
Qed.

(** C9.  A failure to launch the external program is reported on standard
    error by exactly one of three diagnostics: [<name>: command not found]
    when the executable is missing, [<name>: permission denied] when
    permission is lacking, [Error running command: <detail>] for any other
    failure.  In each case the command returns normally and the loop goes
    on to the next line, with nothing changed in the session but standard
    error. *)
Theorem launch_failure_is_reported_and_survived :
  forall os c0 args a0 argv rest s k detail,
    forallb plain_word (c0 :: args) = true ->
    forallb no_directive (c0 :: args) = true ->
    str_in c0 BUILTIN_COMMANDS = false ->
    resolve_external os (cwd s) (c0 :: args) = Some (a0 :: argv) ->
    run os (cwd s) (a0 :: argv) = LaunchFailed k detail ->
    let report := match k with
                  | ENOENT => a0 ++ ": command not found"
                  | EACCES => a0 ++ ": permission denied"
                  | _ => "Error running command: " ++ detail
                  end in
    dispatch os (c0 :: args) None false None false s
    = Val tt (add_stderr s (report ++ nl))
    /\ main os (Line (join " " (c0 :: args)) :: rest) s
       = main os rest (add_stderr (add_stdout s "$ ") (report ++ nl)).
Proof.
  intros os c0 args a0 argv rest s k detail Hp Hd Hb Hr Hl report.
  assert (Hdiag : diagnostic a0 (os_exn k detail) = report)
    by (destruct k; reflexivity).
  assert (Hdisp : forall s0,
             cwd s0 = cwd s ->
             dispatch os (c0 :: args) None false None false s0
             = Val tt (add_stderr s0 (report ++ nl))).
  { intros s0 Hc. rewrite dispatch_external by exact Hb.
    rewrite execute_quoted_executable_resolves, Hc, Hr, <- Hdiag.
    apply run_external_command_handles; [|destruct k; reflexivity].
    apply run_external_try_launch_failed_plain. now rewrite Hc. }
  split; [now apply Hdisp|].
  rewrite main_line, loop_body_plain_words by (assumption || discriminate).
  now rewrite Hdisp.
Qed.

Lemma launch_failure_witness :
  dispatch Samples.locked_ls ("ls" :: ["-l"]) None false None false
           Samples.start
  = Val tt (add_stderr Samples.start ("/bin/ls: permission denied" ++ nl))
  /\ main Samples.locked_ls
          [Line (join " " ("ls" :: ["-l"])); Line "pwd"] Samples.start
     = main Samples.locked_ls [Line "pwd"]
            (add_stderr (add_stdout Samples.start "$ ")
                        ("/bin/ls: permission denied" ++ nl)).
Proof.
  apply (launch_failure_is_reported_and_survived
           Samples.locked_ls "ls" ["-l"] "/bin/ls" ["-l"] [Line "pwd"]
           Samples.start EACCES "Permission denied"); reflexivity.
Defined.

(** The loop after each kind of launch failure. *)
Example launch_failures_session :
  main Samples.locked_ls [Line "ls -l"; Line "nosuch"; Line "pwd"]
       Samples.start
  = (SystemExit 0,
     mkState "/home/u" []
             ("$ $ $ /home/u" ++ nl ++ "$ ")
             ("/bin/ls: permission denied" ++ nl
              ++ "nosuch: command not found" ++ nl)).
Proof. reflexivity. Qed.

(** A redirection file that cannot be opened is reported by the same three
    clauses. *)
Example unopenable_target_is_reported :
  forall os s,
    open_error os (cwd s) "f" = Some (ENOENT, "No such file or directory") ->
    run_external_command os ["/bin/ls"] (Some "f") false None false s
    = Val tt (add_stderr s ("/bin/ls: command not found" ++ nl)).
Proof.
  intros os s H.
  apply (run_external_command_handles os "/bin/ls" [] (Some "f") false None
           false s (FileNotFoundError "No such file or directory") s);
    [|reflexivity].
  unfold run_external_try. cbv beta iota zeta delta [bind open].
  cbn [truthy String.eqb Ascii.eqb negb Bool.eqb]. now rewrite H.
Qed.

End External.

(** ** The [type] built-in and command resolution *)

Section TypeBuiltin.
Import PyStr Shell Spec Notions.

(** What [type] does for a name that is not a built-in. *)
Lemma dispatch_type_lookup : forall os name more o a e ae s,
    str_in name BUILTIN_COMMANDS = false ->
    dispatch os ("type" :: name :: more) o a e ae s
    = match type_lookup os (cwd s) name with
      | Some p => Val tt (add_stdout s (name ++ " is " ++ p ++ nl))
      | None => Val tt (add_stderr s (name ++ ": not found" ++ nl))
      end.
Proof.
  intros os name more o a e ae s Hb. unfold type_lookup.
  cbv beta iota zeta delta
      [dispatch bind ret index nth_error find_executable print print_err
       sys_stdout_write sys_stderr_write].
  cbn [String.eqb Ascii.eqb Bool.eqb andb]. rewrite Hb.
  destruct (which os (cwd s) name) as [r|]; [|now rewrite append_assoc].
  destruct (truthy (Some r)); now rewrite !append_assoc.
Qed.

(** C4 does not hold: with an executable file [tool] in the working
    directory and nothing of that name on the search path, the resolution
    of external commands accepts [tool] by its direct check and hands it
    to [run_external_command], while [type tool] reports "not found". *)
Lemma type_misses_direct_executable :
  ~ type_agrees_with_resolver Samples.local_tool Samples.start "tool".
Proof.
  unfold type_agrees_with_resolver. intros [_ H].
  destruct H as [p Hp]; [exists ["tool"]; reflexivity|].
  rewrite dispatch_type_lookup in Hp by reflexivity.
  cbn in Hp. inversion Hp.
Qed.

Example local_tool_lookups :
  resolve_external Samples.local_tool "/home/u" ["tool"] = Some ["tool"]
  /\ type_lookup Samples.local_tool "/home/u" "tool" = None
  /\ dispatch Samples.local_tool ["type"; "tool"] None false None false
              Samples.start
     = Val tt (add_stderr Samples.start ("tool: not found" ++ nl)).
Proof. repeat split. Qed.

(** C4, amended.  For a name that is not a built-in, [type] consults the
    search path only: it prints [<name> is <path>] on standard output when
    [find_executable] finds the name and [<name>: not found] on standard
    error otherwise.  It agrees with the resolution of external commands
    whenever the name does not pass the direct check (an existing,
    regular, executable file), in which case both report the same path. *)
Theorem type_resolves_on_search_path_only : forall os name s,
    str_in name BUILTIN_COMMANDS = false ->
    dispatch os ["type"; name] None false None false s
    = match type_lookup os (cwd s) name with
      | Some p => Val tt (add_stdout s (name ++ " is " ++ p ++ nl))
      | None => Val tt (add_stderr s (name ++ ": not found" ++ nl))
      end
    /\ (isfile os (cwd s) name && access_X_OK os (cwd s) name = false ->
        resolve_external os (cwd s) [name]
        = option_map (fun p => [p]) (type_lookup os (cwd s) name)
        /\ type_agrees_with_resolver os s name).
Proof.
  intros os name s Hb. split; [now apply dispatch_type_lookup|].
  intros Hd.
  assert (Hr : resolve_external os (cwd s) [name]
               = option_map (fun p => [p]) (type_lookup os (cwd s) name)).
  { unfold resolve_external, type_lookup. rewrite Hd.
    destruct (which os (cwd s) name) as [r|]; [|reflexivity].
    destruct (truthy (Some r)); reflexivity. }
  split; [exact Hr|].
  unfold type_agrees_with_resolver.
  rewrite dispatch_type_lookup by exact Hb. rewrite Hr.
  destruct (type_lookup os (cwd s) name) as [p|]; cbn [option_map].
  - split; intros _; eauto.
  - split; intros [x Hx]; [|discriminate].
    exfalso. unfold add_stderr, add_stdout in Hx.
    injection Hx as _ He.
    apply (f_equal String.length) in He.
    rewrite !length_append in He. simpl in He. lia.
Qed.

Lemma type_resolves_witness :
  dispatch Samples.locked_ls ["type"; "ls"] None false None false
           Samples.start
  = Val tt (add_stdout Samples.start ("ls" ++ " is " ++ "/bin/ls" ++ nl))
  /\ resolve_external Samples.locked_ls (cwd Samples.start) ["ls"]
     = Some ["/bin/ls"]
  /\ type_agrees_with_resolver Samples.locked_ls Samples.start "ls".
Proof.
  destruct (type_resolves_on_search_path_only
              Samples.locked_ls "ls" Samples.start eq_refl) as [H1 H2].
  destruct (H2 eq_refl) as [H3 H4].
  split; [exact H1|]. split; [exact H3|exact H4].
Defined.

End TypeBuiltin.

(** ** A sample session *)

Example session_echo_twice :
  Shell.main Samples.bare
    [Shell.Line "echo hi > f"; Shell.Line "echo  'a  b'   c >> f";
     Shell.Line "pwd"; Shell.Line "cd /tmp"; Shell.Line "pwd";
     Shell.Line "exit 0"; Shell.Line "echo never"] Samples.start
  = (Shell.SystemExit 0,
     Shell.mkState "/tmp"
       [("/home/u/f", "hi" ++ PyStr.nl ++ "a  b c" ++ PyStr.nl)]
       ("$ $ $ /home/u" ++ PyStr.nl ++ "$ $ /tmp" ++ PyStr.nl ++ "$ ")
       "").
Proof. reflexivity. Qed.

(** Appending twice leaves two lines, overwriting twice leaves one. *)
Example redirection_round_trip :
  Shell.file_content "/home/u/f"
    (Shell.files
       (snd (Shell.main Samples.bare
               [Shell.Line "echo hi >> f"; Shell.Line "echo hi >> f"]
               Samples.start)))
  = Some ("hi" ++ PyStr.nl ++ "hi" ++ PyStr.nl)
  /\ Shell.file_content "/home/u/f"
       (Shell.files
          (snd (Shell.main Samples.bare
                  [Shell.Line "echo hi > f"; Shell.Line "echo hi > f"]
                  Samples.start)))
     = Some ("hi" ++ PyStr.nl).
Proof. split; reflexivity. Qed.

(** * Further properties *)

(** ** Redirection extraction, continued *)

Section RedirectionMore.
Import PyStr Shell Spec Notions Observations.

Lemma words_app : forall a b, words (a ++ b)%list = (words a ++ words b)%list.
Proof.
  induction a as [|[w|st ap f|st] a IH]; intros b; simpl; now rewrite ?IH.
Qed.

Lemma complaints_app : forall a b,
    complaints (a ++ b)%list = complaints a ++ complaints b.
Proof.
  induction a as [|[w|st ap f|st] a IH]; intros b; simpl; auto.
  now rewrite IH, !append_assoc.
Qed.

Lemma last_redirect_app : forall st a b cur,
    last_redirect st cur (a ++ b)%list
    = last_redirect st (last_redirect st cur a) b.
Proof.
  intros st a. induction a as [|[w|st' ap f|st'] a IH]; intros b cur;
    simpl; auto.
Qed.

Lemma items_words_directive_free : forall ts,
    forallb no_directive (words (items ts)) = true.
Proof.
  intros ts. remember (List.length ts) as n eqn:Hn.
  revert ts Hn. induction n as [n IH] using lt_wf_ind.
  intros [|part ts] Hn; [reflexivity|].
  cbn [items]. destruct (directive part) as [[st ap]|] eqn:E.
  - destruct ts as [|file ts]; [reflexivity|].
    cbn [words]. apply (IH (List.length ts)); [simpl in Hn; lia|reflexivity].
  - cbn [words forallb]. unfold no_directive at 1. rewrite E.
    apply (IH (List.length ts)); [simpl in Hn; lia|reflexivity].
Qed.

Lemma clean_command_items : forall ts,
    clean_command (redirection_scan ts) = words (items ts).
Proof.
  intros ts. rewrite redirection_scan_items.
  now destruct (fold_items_locals (items ts) initial_locals) as [H _].
Qed.

Lemma handle_redirection_directive_free : forall l s,
    forallb no_directive l = true ->
    handle_redirection l s = Val (l, None, false, None, false) s.
Proof.
  intros l s H. rewrite handle_redirection_items. cbv zeta.
  rewrite items_of_words by exact H.
  destruct (scan_of_words l) as (H1 & H2 & H3).
  now rewrite H1, H2, !H3, add_stderr_empty.
Qed.

(** X12.  The clean tokens that [handle_redirection] returns never contain
    a redirection operator, and extracting from them again changes
    nothing: they come back as they are, with no target and no message. *)
Theorem extraction_is_idempotent : forall ts s,
    let clean := clean_command (redirection_scan ts) in
    forallb no_directive clean = true
    /\ handle_redirection clean s = Val (clean, None, false, None, false) s.
Proof.
  intros ts s clean.
  assert (H : forallb no_directive clean = true).
  { subst clean. rewrite clean_command_items.
    apply items_words_directive_free. }
  split; [exact H|now apply handle_redirection_directive_free].
Qed.

Lemma complaints_trailing : forall ts,
    complaints (items ts) = ""
    \/ exists pre d st ap,
      ts = (pre ++ [d])%list /\ directive d = Some (st, ap)
      /\ complaints (items ts) = missing st ++ nl.
Proof.
  intros ts. remember (List.length ts) as n eqn:Hn.
  revert ts Hn. induction n as [n IH] using lt_wf_ind.
  intros [|part ts] Hn; [now left|].
  cbn [items]. destruct (directive part) as [[st ap]|] eqn:E.
  - destruct ts as [|file ts].
    + right. exists [], part, st, ap.
      split; [reflexivity|]. split; [exact E|].
      simpl. now rewrite ?append_assoc, ?append_empty_r.
    + cbn [complaints].
      destruct (IH (List.length ts)) with (ts := ts)
        as [H|(pre & d & st' & ap' & -> & Hd & Hc)];
        [simpl in Hn; lia|reflexivity|now left|].
      right. exists (part :: file :: pre), d, st', ap'. auto.
  - cbn [complaints].
    destruct (IH (List.length ts)) with (ts := ts)
      as [H|(pre & d & st' & ap' & -> & Hd & Hc)];
      [simpl in Hn; lia|reflexivity|now left|].
    right. exists (part :: pre), d, st', ap'. auto.
Qed.

(** X13.  [handle_redirection] prints at most one syntax error, and only
    when the last token of its argument is a redirection operator; the
    message names that operator's stream.  Otherwise it prints nothing. *)
Theorem syntax_error_needs_trailing_operator : forall ts s,
    exists r,
      handle_redirection ts s = Val r s
      \/ exists pre d st ap,
        ts = (pre ++ [d])%list /\ directive d = Some (st, ap)
        /\ handle_redirection ts s = Val r (add_stderr s (missing st ++ nl)).
Proof.
  intros ts s. rewrite handle_redirection_items. cbv zeta.
  eexists.
  destruct (complaints_trailing ts)
    as [H|(pre & d & st & ap & Hts & Hd & Hc)].
  - left. now rewrite H, add_stderr_empty.
  - right. exists pre, d, st, ap. rewrite Hc. auto.
Qed.

(** X14.  Among tokens that are not operators, one operator with its
    filename may stand anywhere, also before the command name: the clean
    tokens are the other tokens in order and the operator's stream gets the
    file and the mode, with no message. *)
Theorem directive_position_is_irrelevant :
  forall pre post d f st ap s,
    forallb no_directive pre = true ->
    forallb no_directive post = true ->
    directive d = Some (st, ap) ->
    handle_redirection (pre ++ d :: f :: post)%list s
    = (let '(o, oa, e, ea) := single_target st f ap in
       Val ((pre ++ post)%list, o, oa, e, ea) s).
Proof.
  intros pre post d f st ap s Hpre Hpost Hd.
  rewrite handle_redirection_items. cbv zeta.
  destruct (scan_of_words pre) as (P1 & P2 & P3).
  destruct (scan_of_words post) as (Q1 & Q2 & Q3).
  rewrite items_app by (now rewrite items_of_words, P2).
  cbn [items]. rewrite Hd, !items_of_words by assumption.
  rewrite words_app, complaints_app, !last_redirect_app.
  cbn [words complaints last_redirect].
  rewrite P1, P2, Q1, Q2, !P3, !Q3, add_stderr_empty.
  destruct st; reflexivity.
Qed.

Lemma directive_position_witness :
  handle_redirection (["make"] ++ ">" :: "out" :: ["all"])%list Samples.start
  = (let '(o, oa, e, ea) := single_target Out "out" false in
     Val ((["make"] ++ ["all"])%list, o, oa, e, ea) Samples.start).
Proof.
  apply (directive_position_is_irrelevant
           ["make"] ["all"] ">" "out" Out false Samples.start);
    reflexivity.
Defined.

Example operator_before_command :
  handle_redirection ["2>>"; "log"; "make"; "all"] Samples.start
  = Val (["make"; "all"], None, false, Some "log", true) Samples.start.
Proof. reflexivity. Qed.

End RedirectionMore.

(** ** Tokenizer, continued *)

Section TokenizerMore.
Import PyStr Shlex Shell Spec Notions Observations.

(** White space before a token is skipped. *)
Lemma tokens_skip_blank : forall b rest fuel,
    blank b = true ->
    tokens fuel (b ++ rest) Sspace = tokens fuel rest Sspace.
Proof.
  induction b as [|c b IH]; intros rest fuel H; [reflexivity|].
  unfold blank in H. cbn [all_chars] in H. apply andb_prop in H.
  destruct H as [Hc Hb]. rewrite <- (IH rest fuel Hb).
  destruct fuel as [|fuel]; [reflexivity|].
  cbn [tokens append]. unfold read_token. cbn [read_token_loop].
  rewrite Hc. reflexivity.
Qed.

Lemma tokens_blank : forall b fuel,
    blank b = true -> tokens (S fuel) b Sspace = Some (inr []).
Proof.
  intros b fuel H. rewrite <- (append_empty_r b).
  now rewrite tokens_skip_blank.
Qed.

(** A well-formed word followed by nothing or by white space is one token;
    the rest of the line is tokenized on its own. *)
Lemma tokens_word_then : forall w rest fuel r,
    well_formed w = true ->
    starts_blank rest = true ->
    tokens fuel rest Sspace = Some r ->
    tokens (S fuel) (render w ++ rest) Sspace = Some (cons_token (content w) r).
Proof.
  intros w rest fuel r Hw Hs Hr.
  destruct (content_emitted w Hw) as [Hh He].
  cbn [tokens]. rewrite read_word by exact Hw.
  destruct rest as [|c rest].
  - cbn [read_token_loop]. rewrite He.
    destruct fuel as [|fuel]; [discriminate|].
    cbn in Hr. injection Hr as <-. reflexivity.
  - cbn [starts_blank] in Hs. cbn [read_token_loop]. rewrite Hs, Hh, He.
    assert (Hskip : tokens fuel (String c rest) Sspace
                    = tokens fuel rest Sspace).
    { apply (tokens_skip_blank (String c "") rest fuel).
      unfold blank. cbn [all_chars]. now rewrite Hs. }
    rewrite <- Hskip, Hr. destruct r; reflexivity.
Qed.

Lemma spaced_starts_blank : forall l rest,
    spaced_well_formed l = true ->
    starts_blank rest = true ->
    starts_blank (spaced l ++ rest) = true.
Proof.
  intros [|[sep w] l] rest Hl Hr; [exact Hr|].
  cbn [spaced_well_formed forallb fst snd] in Hl.
  apply andb_prop in Hl. destruct Hl as [Hp _].
  apply andb_prop in Hp. destruct Hp as [Hsep _].
  unfold separator in Hsep. apply andb_prop in Hsep.
  destruct Hsep as [Hne Hb]. destruct sep as [|c sep]; [discriminate|].
  unfold blank in Hb. cbn [all_chars] in Hb. apply andb_prop in Hb.
  cbn. tauto.
Qed.

Lemma prepend_tokens : forall l r,
    fold_right cons_token r (contents l)
    = match r with
      | inl msg => inl msg
      | inr ts => inr (contents l ++ ts)%list
      end.
Proof.
  induction l as [|[sep w] l IH]; intros r; [now destruct r|].
  cbn [contents map fold_right snd]. fold (contents l). rewrite IH.
  destruct r; reflexivity.
Qed.

(** Separated words, then a remainder that is tokenized on its own. *)
Lemma tokens_spaced_then : forall l rest fuel r,
    spaced_well_formed l = true ->
    starts_blank rest = true ->
    tokens fuel rest Sspace = Some r ->
    tokens (List.length l + fuel) (spaced l ++ rest) Sspace
    = Some (fold_right cons_token r (contents l)).
Proof.
  induction l as [|[sep w] l IH]; intros rest fuel r Hl Hs Hr; [exact Hr|].
  pose proof Hl as Hl'.
  cbn [spaced_well_formed forallb fst snd] in Hl.
  apply andb_prop in Hl. destruct Hl as [Hp Hl].
  apply andb_prop in Hp. destruct Hp as [Hsep Hw].
  unfold separator in Hsep. apply andb_prop in Hsep.
  destruct Hsep as [_ Hb].
  cbn [spaced List.length Nat.add contents map fold_right snd].
  rewrite !append_assoc, tokens_skip_blank by exact Hb.
  apply tokens_word_then; [exact Hw|now apply spaced_starts_blank|].
  now apply IH.
Qed.

Lemma blank_starts_blank : forall b, blank b = true -> starts_blank b = true.
Proof.
  intros [|c b] H; [reflexivity|]. unfold blank in H. cbn [all_chars] in H.
  apply andb_prop in H. cbn. tauto.
Qed.

(** The tokens of a line with an arbitrary remainder after its words. *)
Lemma split_words_then : forall lead w l rest fuel r,
    blank lead = true ->
    well_formed w = true ->
    spaced_well_formed l = true ->
    starts_blank rest = true ->
    tokens fuel rest Sspace = Some r ->
    split (lead ++ render w ++ spaced l ++ rest)
    = cons_token (content w) (fold_right cons_token r (contents l)).
Proof.
  intros lead w l rest fuel r Hlead Hw Hl Hs Hr.
  apply (split_from_tokens (S (List.length l + fuel))).
  rewrite tokens_skip_blank by exact Hlead.
  apply tokens_word_then; [exact Hw|now apply spaced_starts_blank|].
  now apply tokens_spaced_then.
Qed.

(** X4.  Tokenizing a line of well-formed words gives back the words'
    contents, in order, whatever runs of white space separate them, precede
    the first or follow the last; a line of white space only has no
    tokens. *)
Theorem split_recovers_words : forall lead w l trail,
    blank lead = true ->
    well_formed w = true ->
    spaced_well_formed l = true ->
    blank trail = true ->
    split (lead ++ render w ++ spaced l ++ trail)
    = inr (content w :: contents l)
    /\ split trail = inr [].
Proof.
  intros lead w l trail Hlead Hw Hl Ht. split.
  - rewrite (split_words_then lead w l trail 1 (inr []));
      try assumption.
    + rewrite prepend_tokens. cbn [cons_token]. now rewrite app_nil_r.
    + now apply blank_starts_blank.
    + now apply tokens_blank.
  - apply (split_from_tokens 1). now apply tokens_blank.
Qed.

Lemma split_recovers_words_witness :
  split ("  " ++ render (Bare "echo")
         ++ spaced [("   ", Quoted "'" "a  b"); (String "009" " ", Bare "c")]
         ++ " ")
  = inr (content (Bare "echo")
         :: contents [("   ", Quoted "'" "a  b"); (String "009" " ", Bare "c")])
  /\ split " " = inr [].
Proof.
  apply (split_recovers_words
           "  " (Bare "echo")
           [("   ", Quoted "'" "a  b"); (String "009" " ", Bare "c")] " ");
    reflexivity.
Defined.

(** A run of characters that stand for themselves between quotes, at any
    point of the quotation. *)
Lemma quote_run_any : forall body rest q tok quoted es,
    all_chars (quotable q) body = true ->
    exists quoted',
      read_token_loop (body ++ rest) (Squote q) tok quoted es
      = read_token_loop rest (Squote q) (tok ++ body) quoted' es.
Proof.
  intros [|c body] rest q tok quoted es H.
  - exists quoted. now rewrite append_empty_r.
  - exists true.
    change (String c body ++ rest) with (String c (body ++ rest)).
    rewrite quote_state_sets_quoted.
    change (String c (body ++ rest)) with (String c body ++ rest).
    now apply quote_run.
Qed.

(** Between double quotes, the end of the line raises. *)
Lemma dq_pieces_raise : forall ps tok quoted es,
    forallb dq_piece_ok ps = true ->
    read_token_loop (render_dq ps) (Squote dquote) tok quoted es
    = Raise "No closing quotation"
    /\ read_token_loop (render_dq ps ++ String backslash "") (Squote dquote)
                       tok quoted es
       = Raise "No escaped character".
Proof.
  induction ps as [|p ps IH]; intros tok quoted es H; [split; reflexivity|].
  cbn [forallb] in H. apply andb_prop in H. destruct H as [Hp Hps].
  cbn [render_dq]. rewrite append_assoc.
  destruct p as [r|c].
  - cbn [dq_piece_ok render_dq_piece] in *.
    destruct (quote_run_any r (render_dq ps) dquote tok quoted es Hp)
      as [q1 E1].
    destruct (quote_run_any r (render_dq ps ++ String backslash "") dquote
                            tok quoted es Hp) as [q2 E2].
    rewrite E1, E2. split; now apply IH.
  - cbn [render_dq_piece append].
    rewrite !quote_state_sets_quoted, !escape_in_dquotes.
    split; now apply IH.
Qed.

(** An opening quote that is never closed. *)
Lemma tokens_unterminated : forall tail msg,
    unterminated tail msg ->
    tokens 1 tail Sspace = Some (inl msg).
Proof.
  intros tail msg [body Hb|ps Hps|ps Hps]; cbn [tokens]; unfold read_token.
  - change (read_token_loop (String "'" body) Sspace "" false Sspace)
      with (read_token_loop body (Squote "'") "" false Sspace).
    destruct (quote_run_any body "" "'"%char "" false Sspace Hb) as [q1 E].
    rewrite append_empty_r in E. now rewrite E.
  - change (read_token_loop (String dquote (render_dq ps)) Sspace "" false
                            Sspace)
      with (read_token_loop (render_dq ps) (Squote dquote) "" false Sspace).
    now destruct (dq_pieces_raise ps "" false Sspace Hps) as [-> _].
  - change (read_token_loop
              (String dquote (render_dq ps ++ String backslash "")) Sspace ""
              false Sspace)
      with (read_token_loop (render_dq ps ++ String backslash "")
                            (Squote dquote) "" false Sspace).
    now destruct (dq_pieces_raise ps "" false Sspace Hps) as [_ ->].
Qed.

(** X2.  A line whose last word opens a quotation that is never closed is
    a parse error, whatever words precede that word: the tokenizer raises
    "No closing quotation" when the line ends within the quoted text, and
    "No escaped character" when, between double quotes, the line ends
    right after a backslash that is not itself escaped. *)
Theorem unterminated_quote_is_an_error : forall lead w l sep tail msg,
    blank lead = true ->
    well_formed w = true ->
    spaced_well_formed l = true ->
    separator sep = true ->
    unterminated tail msg ->
    split (lead ++ render w ++ spaced l ++ sep ++ tail) = inl msg
    /\ split (lead ++ tail) = inl msg.
Proof.
  intros lead w l sep tail msg Hlead Hw Hl Hsep Hu.
  pose proof (tokens_unterminated tail msg Hu) as Ht.
  unfold separator in Hsep. apply andb_prop in Hsep.
  destruct Hsep as [Hne Hsb]. split.
  - rewrite (split_words_then lead w l (sep ++ tail) 1 (inl msg));
      try assumption.
    + now rewrite prepend_tokens.
    + destruct sep as [|c sep]; [discriminate|].
      unfold blank in Hsb. cbn [all_chars] in Hsb. apply andb_prop in Hsb.
      cbn. tauto.
    + now rewrite tokens_skip_blank.
  - apply (split_from_tokens 1). now rewrite tokens_skip_blank.
Qed.

Lemma unterminated_quote_witness :
  split ("" ++ render (Bare "echo") ++ spaced [] ++ " "
         ++ String dquote
              (render_dq [Run "a"; Esc dquote; Run "b"]
               ++ String backslash ""))
  = inl "No escaped character"
  /\ split ("" ++ String dquote
                    (render_dq [Run "a"; Esc dquote; Run "b"]
                     ++ String backslash ""))
     = inl "No escaped character".
Proof.
  apply (unterminated_quote_is_an_error
           "" (Bare "echo") [] " "
           (String dquote
              (render_dq [Run "a"; Esc dquote; Run "b"]
               ++ String backslash ""))
           "No escaped character");
    try reflexivity.
  apply (Open_double_escape [Run "a"; Esc dquote; Run "b"]). reflexivity.
Defined.

Example unterminated_quote_samples :
  split ("echo " ++ String dquote "unterminated")
  = inl "No closing quotation"
  /\ split "echo 'it\"
     = inl "No closing quotation"
  /\ split ("echo " ++ String dquote "abc\")
     = inl "No escaped character".
Proof. repeat split. Qed.

(** X3.  Outside quotes a backslash makes the next character, whatever it
    is, an ordinary character of the token and disappears itself; a
    backslash that ends the line is the parse error "No escaped
    character". *)
Theorem unquoted_backslash_escapes_next : forall w1 c w2,
    all_chars plain_char w1 = true ->
    all_chars plain_char w2 = true ->
    split (w1 ++ String backslash (String c w2))
    = inr [w1 ++ String c w2]
    /\ split (w1 ++ String backslash "") = inl "No escaped character".
Proof.
  intros w1 c w2 H1 H2.
  assert (Hstart : forall rest,
             read_token (w1 ++ String backslash rest) Sspace
             = read_token_loop rest (Sescape backslash) w1 false Sword).
  { intros rest. unfold read_token. destruct w1 as [|d w1]; [reflexivity|].
    pose proof H1 as H1'. cbn [all_chars] in H1'.
    apply andb_prop in H1'. destruct H1' as [Hd Hw1].
    unfold plain_char in Hd. apply negb_true_iff in Hd.
    do 3 (apply orb_false_elim in Hd; destruct Hd as [Hd ?]).
    cbn [append read_token_loop].
    repeat match goal with H : char_in d _ = false |- _ => rewrite H end.
    rewrite word_run by exact Hw1. reflexivity. }
  split.
  - apply (split_from_tokens 2). cbn [tokens]. rewrite Hstart.
    cbn [read_token_loop in_quotes andb].
    rewrite <- (append_empty_r w2), word_run by exact H2.
    cbn [read_token_loop]. rewrite append_empty_r.
    unfold snoc. rewrite !append_assoc. cbn [append].
    assert (He : emit (w1 ++ String c w2) false = Some (w1 ++ String c w2)).
    { unfold emit. destruct w1; reflexivity. }
    now rewrite He.
  - apply (split_from_tokens 1). cbn [tokens]. now rewrite Hstart.
Qed.

Lemma unquoted_backslash_witness :
  split ("my" ++ String backslash (String " " "file")) = inr ["my" ++ " file"]
  /\ split ("my" ++ String backslash "") = inl "No escaped character".
Proof.
  apply (unquoted_backslash_escapes_next "my" " " "file"); reflexivity.
Defined.

End TokenizerMore.

(** ** The read-execute loop, continued *)

Section LoopMore.
Import PyStr Shlex Shell Spec Notions Observations.

Lemma lstrip_all_space : forall b, all_chars isspace b = true -> lstrip b = "".
Proof.
  induction b as [|c b IH]; intros H; [reflexivity|].
  cbn [all_chars] in H. apply andb_prop in H. destruct H as [Hc Hb].
  cbn [lstrip]. rewrite Hc. now apply IH.
Qed.

(** X5.  A line that is empty or consists of white space only does
    nothing: the loop prints its prompt and goes on to the next line. *)
Theorem blank_line_is_skipped : forall os line rest s,
    all_chars isspace line = true ->
    main os (Line line :: rest) s = main os rest (add_stdout s "$ ").
Proof.
  intros os line rest s H. rewrite main_line, loop_body_line.
  unfold strip. rewrite lstrip_all_space by exact H. reflexivity.
Qed.

Lemma blank_line_witness :
  main Samples.bare [Line (String "009" "  "); Line ""] Samples.start
  = main Samples.bare [Line ""] (add_stdout Samples.start "$ ").
Proof.
  apply (blank_line_is_skipped Samples.bare (String "009" "  ") [Line ""]
                               Samples.start).
  reflexivity.
Defined.

(** X1.  A line on which the tokenizer raises is reported as
    [Parsing error: <message>] on standard error and executes nothing;
    the loop goes on to the next line. *)
Theorem parse_error_is_reported_and_skipped : forall os line msg rest s,
    Shlex.split (strip line) = inl msg ->
    main os (Line line :: rest) s
    = main os rest
           (add_stderr (add_stdout s "$ ") ("Parsing error: " ++ msg ++ nl)).
Proof.
  intros os line msg rest s H. rewrite main_line, loop_body_line, H.
  destruct (strip line =? "") eqn:E; [|reflexivity].
  apply String.eqb_eq in E. rewrite E in H. discriminate.
Qed.

Lemma parse_error_witness :
  main Samples.bare
       [Line ("echo " ++ String dquote "unterminated"); Line "pwd"]
       Samples.start
  = main Samples.bare [Line "pwd"]
         (add_stderr (add_stdout Samples.start "$ ")
                     ("Parsing error: " ++ "No closing quotation" ++ nl)).
Proof.
  apply (parse_error_is_reported_and_skipped
           Samples.bare ("echo " ++ String dquote "unterminated")
           "No closing quotation" [Line "pwd"] Samples.start).
  reflexivity.
Defined.

Lemma main_exit_0 : forall os rest s,
    main os (Line "exit 0" :: rest) s = (SystemExit 0, add_stdout s "$ ").
Proof. intros. run_line. reflexivity. Qed.

(** X8.  Nothing that follows the line [exit 0] is ever read: the session
    ends as it would with that line as the last one. *)
Theorem nothing_runs_after_exit_0 : forall os before after s,
    main os (before ++ Line "exit 0" :: after)%list s
    = main os (before ++ [Line "exit 0"])%list s.
Proof.
  intros os before after. induction before as [|ev before IH]; intros s.
  - cbn [List.app]. now rewrite !main_exit_0.
  - cbn [List.app]. rewrite !main_line.
    destruct (loop_body os (Some ev) (add_stdout s "$ ")) as [[] s'|[] s'];
      auto.
Qed.

Lemma no_exit_os_chdir : forall os path, no_exit (os_chdir os path).
Proof.
  intros os path s code s'. unfold os_chdir.
  destruct (chdir os (cwd s) path) as [[k detail]|d]; [|discriminate].
  intros H. inversion H as [[H1 H2]]. exact (os_exn_not_exit _ _ _ H1).
Qed.

Lemma no_exit_change_directory : forall os path,
    no_exit (change_directory os path).
Proof.
  intros os path. unfold change_directory. apply no_exit_try_except.
  - apply no_exit_bind; [intros s code s'; discriminate|].
    intros p. apply no_exit_os_chdir.
  - intros e h Hh. destruct e; inversion Hh; subst; apply no_exit_write.
Qed.

Lemma no_exit_write_to : forall os path m text,
    no_exit (write_to os path m text).
Proof.
  intros os path m text. unfold write_to.
  apply no_exit_bind; [apply no_exit_open|intros f; apply no_exit_file_write].
Qed.

Lemma no_exit_builtin_output : forall os o (a : bool) text,
    no_exit (match o with
             | Some f => if truthy o
                         then write_to os f (if a then A else W) (text ++ nl)
                         else print text
             | None => print text
             end).
Proof.
  intros os [f|] a text; [|apply no_exit_write].
  destruct (truthy (Some f)); [apply no_exit_write_to|apply no_exit_write].
Qed.

(** The only [SystemExit] that a line can raise has status 0. *)
Lemma dispatch_exit_code : forall os command_parts o a e ae s code s',
    dispatch os command_parts o a e ae s = Exc (SystemExit code) s' ->
    code = 0.
Proof.
  intros os [|c0 args] o a e ae s code s' H; [discriminate|].
  unfold dispatch in H. unfold bind at 1 in H. cbn [index nth_error ret] in H.
  unfold bind at 1 in H.
  destruct ((c0 =? "exit") && (List.length (c0 :: args) =? 2)%nat
            && (nth 1 (c0 :: args) "" =? "0")).
  - cbv in H. congruence.
  - cbn [ret] in H. exfalso. revert H.
    destruct (c0 =? "echo"); [apply no_exit_builtin_output|].
    destruct (c0 =? "type").
    { apply no_exit_bind; [apply no_exit_index|intros name].
      destruct (str_in name BUILTIN_COMMANDS); [apply no_exit_write|].
      apply no_exit_bind; [intros s0 c s1; discriminate|intros [p|]].
      - destruct (truthy (Some p)); apply no_exit_write.
      - apply no_exit_write. }
    destruct (c0 =? "pwd").
    { apply no_exit_bind; [intros s0 c s1; discriminate|intros d].
      apply no_exit_builtin_output. }
    destruct (c0 =? "cd").
    { destruct (1 <? List.length (c0 :: args))%nat.
      - apply no_exit_bind; [apply no_exit_index|intros p].
        apply no_exit_change_directory.
      - apply no_exit_os_chdir. }
    apply no_exit_execute_quoted_executable.
Qed.

Lemma loop_body_exit_code : forall os ev s code s',
    loop_body os (Some ev) s = Exc (SystemExit code) s' -> code = 0.
Proof.
  intros os [text|] s code s' H; [|discriminate].
  rewrite loop_body_line in H.
  destruct (strip text =? ""); [discriminate|].
  destruct (Shlex.split (strip text)) as [msg|[|t ts]]; try discriminate.
  cbv zeta in H.
  destruct (words (items (t :: ts))); [discriminate|].
  now apply dispatch_exit_code in H.
Qed.

(** X7.  However the input goes, end of input never leaves [main] as
    [EOFError], and when [main] is left by [SystemExit] the status is
    0. *)
Theorem session_end_status : forall os inputs s,
    match fst (main os inputs s) with
    | SystemExit code => code = 0
    | EOFError => False
    | _ => True
    end.
Proof.
  intros os inputs. induction inputs as [|ev rest IH]; intros s.
  - now rewrite main_eof.
  - rewrite main_line.
    destruct (loop_body os (Some ev) (add_stdout s "$ ")) as [[] s'|e s'] eqn:E;
      [apply IH|].
    destruct e; cbn [fst]; try exact I; try apply IH; try reflexivity.
    now apply loop_body_exit_code in E.
Qed.

Lemma run_external_command_interrupted : forall os argv s,
    run os (cwd s) argv = Interrupted ->
    run_external_command os argv None false None false s
    = Exc KeyboardInterrupt s.
Proof.
  intros os argv s H. unfold run_external_command, try_except.
  unfold run_external_try.
  cbv beta iota zeta delta [bind ret subprocess_run]. cbn [truthy].
  now rewrite H.
Qed.

(** X6.  An interrupt does not end the session: at the prompt, and while
    an external program runs, the loop prints a newline and goes on to the
    next line. *)
Theorem interrupt_returns_to_prompt :
  forall os c0 args argv rest s,
    forallb plain_word (c0 :: args) = true ->
    forallb no_directive (c0 :: args) = true ->
    str_in c0 BUILTIN_COMMANDS = false ->
    resolve_external os (cwd s) (c0 :: args) = Some argv ->
    run os (cwd s) argv = Interrupted ->
    main os (CtrlC :: rest) s = main os rest (add_stdout s ("$ " ++ nl))
    /\ main os (Line (join " " (c0 :: args)) :: rest) s
       = main os rest (add_stdout s ("$ " ++ nl)).
Proof.
  intros os c0 args argv rest s Hp Hd Hb Hr Hi. split.
  - rewrite main_line. cbn [loop_body input bind raise].
    now rewrite add_stdout_add_stdout.
  - rewrite main_line, loop_body_plain_words by (assumption || discriminate).
    rewrite dispatch_external by exact Hb.
    rewrite execute_quoted_executable_resolves. cbn [cwd add_stdout].
    rewrite Hr, run_external_command_interrupted by exact Hi.
    now rewrite add_stdout_add_stdout.
Qed.

Lemma interrupt_witness :
  main Worlds.sleeper [CtrlC] Samples.start
  = main Worlds.sleeper [] (add_stdout Samples.start ("$ " ++ nl))
  /\ main Worlds.sleeper [Line (join " " ("sleep" :: ["9"]))] Samples.start
     = main Worlds.sleeper [] (add_stdout Samples.start ("$ " ++ nl)).
Proof.
  apply (interrupt_returns_to_prompt
           Worlds.sleeper "sleep" ["9"] ["/bin/sleep"; "9"] []
           Samples.start); reflexivity.
Defined.

End LoopMore.

(** ** What a command can and cannot change *)

Section Unredirected.
Import PyStr Shell Spec Notions Observations.

(** Without a target, nothing is opened: the child's two streams are
    captured and forwarded. *)
Lemma run_external_try_unredirected : forall os argv o a e ae,
    truthy o = false -> truthy e = false ->
    run_external_try os argv o a e ae
    = (result <- subprocess_run os argv PIPE PIPE ;;
       sys_stdout_write (fst result) ;;;
       sys_stderr_write (snd result) ;;;
       ret tt).
Proof.
  intros os argv o a e ae Ho He. unfold run_external_try.
  rewrite Ho, He.
  destruct o as [f|], e as [g|]; reflexivity.
Qed.

End Unredirected.

Section Frame.
Import PyStr Shell Spec Notions Observations.

Variable R : State -> State -> Prop.
Hypothesis R_refl : forall s, R s s.
Hypothesis R_trans : forall s1 s2 s3, R s1 s2 -> R s2 s3 -> R s1 s3.

(** What the relation may have to tolerate: output, a change of the files,
    a change of directory. *)
Hypothesis R_write : forall s text,
    R s (add_stdout s text) /\ R s (add_stderr s text).
Hypothesis R_files : forall s fs,
    R s (mkState (cwd s) fs (stdout s) (stderr s)).
Hypothesis R_cwd : forall s d,
    R s (mkState d (files s) (stdout s) (stderr s)).

Lemma preserves_ret : forall A (a : A), preserves R (ret a).
Proof. intros A a s. apply R_refl. Qed.

Lemma preserves_raise : forall A e, preserves R (@raise A e).
Proof. intros A e s. apply R_refl. Qed.

Lemma preserves_bind : forall A B (m : M A) (k : A -> M B),
    preserves R m -> (forall a, preserves R (k a)) -> preserves R (bind m k).
Proof.
  intros A B m k Hm Hk s. unfold bind. specialize (Hm s).
  destruct (m s) as [a s1|e s1]; [|exact Hm].
  exact (R_trans _ _ _ Hm (Hk a s1)).
Qed.

Lemma preserves_try_except : forall A (body : M A) handler,
    preserves R body ->
    (forall e h, handler e = Some h -> preserves R h) ->
    preserves R (try_except body handler).
Proof.
  intros A body handler Hb Hh s. unfold try_except. specialize (Hb s).
  destruct (body s) as [a s1|e s1]; [exact Hb|].
  destruct (handler e) as [h|] eqn:E; [|exact Hb].
  exact (R_trans _ _ _ Hb (Hh e h E s1)).
Qed.

Lemma preserves_index : forall l i, preserves R (index l i).
Proof.
  intros l i. unfold index.
  destruct (nth_error l i); [apply preserves_ret|apply preserves_raise].
Qed.

Lemma preserves_write : forall text,
    preserves R (sys_stdout_write text) /\ preserves R (sys_stderr_write text)
    /\ preserves R (print text) /\ preserves R (print_err text).
Proof. repeat split; intros s; apply R_write. Qed.

Lemma preserves_open : forall os path m, preserves R (open os path m).
Proof.
  intros os path m s. unfold open.
  destruct (open_error os (cwd s) path) as [[k detail]|];
    [apply R_refl|apply R_files].
Qed.

Lemma preserves_file_write : forall t text, preserves R (file_write t text).
Proof. intros [|p] text s; [apply R_refl|apply R_files]. Qed.

Lemma preserves_write_to : forall os path m text,
    preserves R (write_to os path m text).
Proof.
  intros. unfold write_to.
  apply preserves_bind; [apply preserves_open|].
  intros f. apply preserves_file_write.
Qed.

Lemma preserves_os_chdir : forall os path, preserves R (os_chdir os path).
Proof.
  intros os path s. unfold os_chdir.
  destruct (chdir os (cwd s) path) as [[k detail]|d];
    [apply R_refl|apply R_cwd].
Qed.

Lemma preserves_query : forall A (f : State -> A),
    preserves R (fun s => Val (f s) s).
Proof. intros A f s. apply R_refl. Qed.

Lemma preserves_change_directory : forall os path,
    preserves R (change_directory os path).
Proof.
  intros os path. unfold change_directory. apply preserves_try_except.
  - apply preserves_bind; [apply preserves_query|].
    intros p. apply preserves_os_chdir.
  - intros e h Hh. destruct e; inversion Hh; subst; apply preserves_write.
Qed.

Lemma preserves_subprocess_run : forall os argv out err,
    preserves R (subprocess_run os argv out err).
Proof.
  intros os argv out err s. unfold subprocess_run.
  destruct (run os (cwd s) argv) as [o e|k detail|];
    [|apply R_refl|apply R_refl].
  apply preserves_bind; [apply preserves_file_write|intros _].
  apply preserves_bind; [apply preserves_file_write|intros _].
  apply preserves_ret.
Qed.

Lemma preserves_run_external_except : forall argv e h,
    run_external_except argv e = Some h -> preserves R h.
Proof.
  intros argv e h Hh. unfold run_external_except in Hh.
  destruct e; simpl in Hh; inversion Hh; subst;
    try (apply preserves_bind; [apply preserves_index|intros c0]);
    apply preserves_write.
Qed.

Lemma preserves_run_external_command : forall os argv o a e ae,
    preserves R (run_external_command os argv o a e ae).
Proof.
  intros os argv o a e ae. unfold run_external_command.
  apply preserves_try_except; [|apply preserves_run_external_except].
  unfold run_external_try.
  apply preserves_bind.
  { destruct o as [f|]; [|apply preserves_ret].
    destruct (truthy (Some f)); [apply preserves_open|apply preserves_ret]. }
  intros t1. apply preserves_bind.
  { destruct e as [f|]; [|apply preserves_ret].
    destruct (truthy (Some f)); [apply preserves_open|apply preserves_ret]. }
  intros t2. apply preserves_bind; [apply preserves_subprocess_run|].
  intros r. apply preserves_bind.
  { destruct (negb (truthy o)); [apply preserves_write|apply preserves_ret]. }
  intros _. apply preserves_bind; [|intros _; apply preserves_ret].
  destruct (negb (truthy e)); [apply preserves_write|apply preserves_ret].
Qed.

Lemma preserves_execute_quoted_executable : forall os argv o a e ae,
    preserves R (execute_quoted_executable os argv o a e ae).
Proof.
  intros os argv o a e ae. unfold execute_quoted_executable.
  apply preserves_bind; [apply preserves_index|intros p].
  apply preserves_bind; [apply preserves_query|intros isf].
  apply preserves_bind.
  { destruct isf; [apply preserves_query|apply preserves_ret]. }
  intros [|]; [apply preserves_run_external_command|].
  apply preserves_bind; [apply preserves_index|intros c0].
  apply preserves_bind; [apply preserves_query|intros [r|]].
  - destruct (truthy (Some r));
      [apply preserves_run_external_command|apply preserves_write].
  - apply preserves_write.
Qed.

Lemma preserves_builtin_output : forall os o (a : bool) text,
    preserves R (match o with
                 | Some f =>
                     if truthy o
                     then write_to os f (if a then A else W) (text ++ nl)
                     else print text
                 | None => print text
                 end).
Proof.
  intros os [f|] a text; [|apply preserves_write].
  destruct (truthy (Some f)); [apply preserves_write_to|apply preserves_write].
Qed.

Lemma preserves_type : forall os command_parts,
    preserves R
      (cmd_to_check <- index command_parts 1 ;;
       if str_in cmd_to_check BUILTIN_COMMANDS then
         print (cmd_to_check ++ " is a shell builtin")
       else
         executable_path <- find_executable os cmd_to_check ;;
         match executable_path with
         | Some path =>
             if truthy executable_path
             then print (cmd_to_check ++ " is " ++ path)
             else print_err (cmd_to_check ++ ": not found")
         | None => print_err (cmd_to_check ++ ": not found")
         end).
Proof.
  intros os parts.
  apply preserves_bind; [apply preserves_index|intros name].
  destruct (str_in name BUILTIN_COMMANDS); [apply preserves_write|].
  apply preserves_bind; [apply preserves_query|intros [p|]].
  - destruct (truthy (Some p)); apply preserves_write.
  - apply preserves_write.
Qed.

Lemma preserves_subprocess_run_pipes : forall os argv,
    preserves R (subprocess_run os argv PIPE PIPE).
Proof.
  intros os argv s. unfold subprocess_run.
  destruct (run os (cwd s) argv) as [o e|k detail|]; apply R_refl.
Qed.

Lemma preserves_run_external_command_unredirected : forall os argv o a e ae,
    truthy o = false -> truthy e = false ->
    preserves R (run_external_command os argv o a e ae).
Proof.
  intros os argv o a e ae Ho He. unfold run_external_command.
  apply preserves_try_except; [|apply preserves_run_external_except].
  rewrite run_external_try_unredirected by assumption.
  apply preserves_bind; [apply preserves_subprocess_run_pipes|intros r].
  apply preserves_bind; [apply preserves_write|intros _].
  apply preserves_bind; [apply preserves_write|intros _].
  apply preserves_ret.
Qed.

Lemma preserves_execute_unredirected : forall os argv o a e ae,
    truthy o = false -> truthy e = false ->
    preserves R (execute_quoted_executable os argv o a e ae).
Proof.
  intros os argv o a e ae Ho He. unfold execute_quoted_executable.
  apply preserves_bind; [apply preserves_index|intros p].
  apply preserves_bind; [apply preserves_query|intros isf].
  apply preserves_bind.
  { destruct isf; [apply preserves_query|apply preserves_ret]. }
  intros [|]; [now apply preserves_run_external_command_unredirected|].
  apply preserves_bind; [apply preserves_index|intros c0].
  apply preserves_bind; [apply preserves_query|intros [r|]].
  - destruct (truthy (Some r));
      [now apply preserves_run_external_command_unredirected
      |apply preserves_write].
  - apply preserves_write.
Qed.

Lemma preserves_builtin_output_unredirected : forall os o (a : bool) text,
    truthy o = false ->
    preserves R (match o with
                 | Some f =>
                     if truthy o
                     then write_to os f (if a then A else W) (text ++ nl)
                     else print text
                 | None => print text
                 end).
Proof.
  intros os o a text Ho. rewrite Ho.
  destruct o; apply preserves_write.
Qed.

(** Commands that open no file: [type] and [cd] always, [echo] and [pwd]
    without an output target, the others without any target. *)
Lemma preserves_dispatch_no_open : forall os c0 args o a e ae,
    str_in c0 ["type"; "cd"] = true
    \/ (truthy o = false
        /\ (truthy e = false \/ str_in c0 ["echo"; "pwd"] = true)) ->
    preserves R (dispatch os (c0 :: args) o a e ae).
Proof.
  intros os c0 args o a e ae H s.
  unfold dispatch. unfold bind at 1. cbn [index nth_error ret].
  unfold bind at 1.
  match goal with |- context [if ?b then sys_exit 0 else _] => destruct b end;
    [apply R_refl|]. cbn [ret].
  unfold str_in in H. cbn [existsb] in H. rewrite !orb_false_r in H.
  destruct (c0 =? "echo") eqn:Eecho.
  { apply preserves_builtin_output_unredirected.
    apply String.eqb_eq in Eecho. subst c0.
    destruct H as [H|[H _]]; [discriminate|exact H]. }
  destruct (c0 =? "type"); [apply preserves_type|].
  destruct (c0 =? "pwd") eqn:Epwd.
  { apply (preserves_bind _ _ os_getcwd); [apply preserves_query|].
    intros d. apply preserves_builtin_output_unredirected.
    apply String.eqb_eq in Epwd. subst c0.
    destruct H as [H|[H _]]; [discriminate|exact H]. }
  destruct (c0 =? "cd").
  { destruct (1 <? List.length (c0 :: args))%nat.
    - apply (preserves_bind _ _ (index (c0 :: args) 1));
        [apply preserves_index|].
      intros p. apply preserves_change_directory.
    - apply preserves_os_chdir. }
  cbn [orb] in H.
  destruct H as [H|[Ho [He|H]]]; try discriminate.
  now apply preserves_execute_unredirected.
Qed.

(** Every command but [cd]: no change of directory to tolerate. *)
Lemma preserves_dispatch_not_cd : forall os c0 args o a e ae,
    c0 <> "cd" ->
    preserves R (dispatch os (c0 :: args) o a e ae).
Proof.
  intros os c0 args o a e ae Hcd s. apply String.eqb_neq in Hcd.
  unfold dispatch. unfold bind at 1. cbn [index nth_error ret].
  unfold bind at 1.
  match goal with |- context [if ?b then sys_exit 0 else _] => destruct b end;
    [apply R_refl|]. cbn [ret]. rewrite Hcd.
  destruct (c0 =? "echo"); [apply preserves_builtin_output|].
  destruct (c0 =? "type"); [apply preserves_type|].
  destruct (c0 =? "pwd"); [|apply preserves_execute_quoted_executable].
  apply (preserves_bind _ _ os_getcwd); [apply preserves_query|].
  intros d. apply preserves_builtin_output.
Qed.

End Frame.

Section Invariants.
Import PyStr Shell Spec Notions Observations.

(** X10.  Only [cd] changes the working directory: whatever else a line
    runs, with whatever arguments and redirections, and however it ends,
    the working directory is afterwards what it was. *)
Theorem only_cd_changes_directory : forall os c0 args o a e ae s,
    c0 <> "cd" ->
    cwd (state_of (dispatch os (c0 :: args) o a e ae s)) = cwd s.
Proof.
  intros os c0 args o a e ae s H.
  apply (preserves_dispatch_not_cd same_cwd); try assumption;
    unfold same_cwd; try reflexivity; try (intros; congruence).
  intros s0 text. split; reflexivity.
Qed.

Lemma only_cd_witness :
  cwd (state_of (dispatch Samples.locked_ls ("ls" :: ["/tmp"]) (Some "out")
                          false None false Samples.start))
  = cwd Samples.start.
Proof.
  apply (only_cd_changes_directory Samples.locked_ls "ls" ["/tmp"]
                                   (Some "out") false None false
                                   Samples.start).
  discriminate.
Defined.

(** X11.  The shell writes no file unless a redirection makes it: [type]
    and [cd] never do, [echo] and [pwd] do not without an output target
    (an error target alone opens nothing), and no other command does
    without any target. *)
Theorem no_file_written_without_target : forall os c0 args o a e ae s,
    str_in c0 ["type"; "cd"] = true
    \/ (truthy o = false
        /\ (truthy e = false \/ str_in c0 ["echo"; "pwd"] = true)) ->
    files (state_of (dispatch os (c0 :: args) o a e ae s)) = files s.
Proof.
  intros os c0 args o a e ae s H.
  apply (preserves_dispatch_no_open same_files); try assumption;
    unfold same_files; try reflexivity; try (intros; congruence).
  intros s0 text. split; reflexivity.
Qed.

Lemma no_file_written_witness :
  files (state_of (dispatch Samples.bare ("echo" :: ["hi"]) None false
                            (Some "err.log") true Samples.start))
  = files Samples.start.
Proof.
  apply (no_file_written_without_target
           Samples.bare "echo" ["hi"] None false (Some "err.log") true
           Samples.start).
  right. split; [reflexivity|right; reflexivity].
Defined.

End Invariants.

(** ** Built-in commands, continued *)

Section BuiltinsMore.
Import PyStr Shlex Shell Spec Notions Observations.

Lemma file_content_update_same : forall p f fs,
    file_content p (file_update p f fs) = Some (f (file_content p fs)).
Proof.
  intros p f. induction fs as [|[q c] fs IH]; cbn [file_update file_content].
  - now rewrite String.eqb_refl.
  - destruct (p =? q) eqn:E; cbn [file_content]; now rewrite E.
Qed.

Lemma file_content_update_other : forall p p' f fs,
    p' <> p ->
    file_content p' (file_update p f fs) = file_content p' fs.
Proof.
  intros p p' f fs Hne. apply String.eqb_neq in Hne.
  induction fs as [|[q c] fs IH]; cbn [file_update file_content].
  - now rewrite Hne.
  - destruct (p =? q) eqn:E; cbn [file_content].
    + apply String.eqb_eq in E. subst q. now rewrite Hne.
    + destruct (p' =? q); [reflexivity|exact IH].
Qed.

(** Opening a target and writing a text to it: the file holds the text,
    after its old content in append mode; no other file and nothing else
    of the session changes. *)
Lemma write_to_effect : forall os f (ap : bool) text s,
    open_error os (cwd s) f = None ->
    let p := abspath os (cwd s) f in
    exists s',
      write_to os f (if ap then A else W) text s = Val tt s'
      /\ file_content p (files s')
         = Some ((if ap then old_content p (files s) else "") ++ text)
      /\ (forall p', p' <> p ->
                     file_content p' (files s') = file_content p' (files s))
      /\ cwd s' = cwd s /\ stdout s' = stdout s /\ stderr s' = stderr s.
Proof.
  intros os f ap text s Ho p. unfold write_to, bind, open. rewrite Ho.
  fold p. cbn [file_write]. eexists. split; [reflexivity|].
  cbn [files cwd stdout stderr]. repeat split.
  - rewrite !file_content_update_same. unfold old_content.
    destruct ap; [destruct (file_content p (files s))|]; reflexivity.
  - intros p' Hne. now rewrite !file_content_update_other.
Qed.

(** X17.  With an output target, [echo] and [pwd] write their line to the
    file and nothing to standard output: [>] leaves the file with that
    line only, [>>] adds the line after the file's old content; no other
    file changes. *)
Theorem builtin_output_goes_to_target : forall os args f (ap : bool) e ae s,
    f <> "" ->
    open_error os (cwd s) f = None ->
    let p := abspath os (cwd s) f in
    let before := if ap then old_content p (files s) else "" in
    (exists s',
        dispatch os ("echo" :: args) (Some f) ap e ae s = Val tt s'
        /\ file_content p (files s') = Some (before ++ join " " args ++ nl)
        /\ (forall p', p' <> p ->
                       file_content p' (files s') = file_content p' (files s))
        /\ cwd s' = cwd s /\ stdout s' = stdout s /\ stderr s' = stderr s)
    /\ (exists s',
           dispatch os ("pwd" :: args) (Some f) ap e ae s = Val tt s'
           /\ file_content p (files s') = Some (before ++ cwd s ++ nl)
           /\ (forall p', p' <> p ->
                          file_content p' (files s')
                          = file_content p' (files s))
           /\ cwd s' = cwd s /\ stdout s' = stdout s /\ stderr s' = stderr s).
Proof.
  intros os args f ap e ae s Hf Ho p before. split.
  - rewrite echo_honours_output_redirection by assumption.
    apply write_to_effect. exact Ho.
  - rewrite pwd_honours_output_redirection by assumption.
    apply write_to_effect. exact Ho.
Qed.

Lemma builtin_output_witness :
  exists s',
    dispatch Samples.bare ("echo" :: ["b"]) (Some "f") true None false
             (mkState "/home/u" [("/home/u/f", "a" ++ nl)] "" "")
    = Val tt s'
    /\ file_content (abspath Samples.bare "/home/u" "f") (files s')
       = Some ((if true
                then old_content (abspath Samples.bare "/home/u" "f")
                                 [("/home/u/f", "a" ++ nl)]
                else "") ++ join " " ["b"] ++ nl)
    /\ (forall p', p' <> abspath Samples.bare "/home/u" "f" ->
                   file_content p' (files s')
                   = file_content p' [("/home/u/f", "a" ++ nl)])
    /\ cwd s' = "/home/u" /\ stdout s' = "" /\ stderr s' = "".
Proof.
  apply (builtin_output_goes_to_target
           Samples.bare ["b"] "f" true None false
           (mkState "/home/u" [("/home/u/f", "a" ++ nl)] "" ""));
    [discriminate|reflexivity].
Defined.

Lemma successful_cd_dispatch : forall os path more o a e ae s d,
    let shown := if path =? "~" then environ_get_HOME os else path in
    chdir os (cwd s) (abspath os (cwd s) shown) = inr d ->
    dispatch os ("cd" :: path :: more) o a e ae s
    = Val tt (mkState d (files s) (stdout s) (stderr s)).
Proof.
  intros os path more o a e ae s d shown H. munfold. fold shown.
  now rewrite H.
Qed.

(** X18.  When the directory can be entered, [cd <path>] makes it the
    working directory and prints nothing, and a [pwd] that follows prints
    it, on the session as well: after the lines [cd <path>] and [pwd] the
    loop goes on in the new directory.  [cd] without argument enters the
    home directory. *)
Theorem successful_cd_changes_directory :
  forall os path more o a e ae s d,
    let shown := if path =? "~" then environ_get_HOME os else path in
    let entered := mkState d (files s) (stdout s) (stderr s) in
    (chdir os (cwd s) (abspath os (cwd s) shown) = inr d ->
     dispatch os ("cd" :: path :: more) o a e ae s = Val tt entered
     /\ dispatch os ["pwd"] None false None false entered
        = Val tt (add_stdout entered (d ++ nl))
     /\ (plain_word path = true -> no_directive path = true ->
         forall rest,
           main os (Line ("cd " ++ path) :: Line "pwd" :: rest) s
           = main os rest
                  (mkState d (files s) (stdout s ++ "$ " ++ "$ " ++ d ++ nl)
                           (stderr s))))
    /\ (chdir os (cwd s) (environ_get_HOME os) = inr d ->
        dispatch os ["cd"] o a e ae s = Val tt entered).
Proof.
  intros os path more o a e ae s d shown entered. split.
  - intros H. split; [now apply successful_cd_dispatch|].
    split; [reflexivity|].
    intros Hp Hn rest. rewrite main_line.
    change ("cd " ++ path) with (join " " ["cd"; path]).
    rewrite loop_body_plain_words;
      [|cbn [forallb]; now rewrite Hp|cbn [forallb]; now rewrite Hn
       |discriminate].
    rewrite (successful_cd_dispatch os path [] None false None false
                                    (add_stdout s "$ ") d H).
    run_line. munfold. f_equal. unfold add_stdout. cbn.
    now rewrite !append_assoc.
  - intros H. munfold. now rewrite H.
Qed.

Lemma successful_cd_witness :
  (dispatch Samples.bare ("cd" :: "/tmp" :: []) None false None false
            Samples.start
   = Val tt (mkState "/tmp" [] "" "")
   /\ main Samples.bare [Line ("cd " ++ "/tmp"); Line "pwd"] Samples.start
      = main Samples.bare []
             (mkState "/tmp" [] ("" ++ "$ " ++ "$ " ++ "/tmp" ++ nl) ""))
  /\ dispatch Samples.bare ["cd"] None false None false Samples.start
     = Val tt (mkState "/home/u" [] "" "").
Proof.
  destruct (successful_cd_changes_directory
              Samples.bare "/tmp" [] None false None false Samples.start
              "/tmp") as [H1 _].
  destruct (successful_cd_changes_directory
              Samples.bare "/tmp" [] None false None false Samples.start
              "/home/u") as [_ H2].
  destruct (H1 eq_refl) as (Ha & _ & Hc).
  split; [split; [exact Ha|apply Hc; reflexivity]|apply H2; reflexivity].
Defined.

(** X19.  [change_directory] handles three kinds of failure only: any
    other failure of the directory change is not reported by the shell and
    leaves [main], ending the session. *)
Theorem unhandled_cd_failure_ends_session :
  forall os path more o a e ae s detail rest,
    let shown := if path =? "~" then environ_get_HOME os else path in
    chdir os (cwd s) (abspath os (cwd s) shown) = inl (EOTHER, detail) ->
    dispatch os ("cd" :: path :: more) o a e ae s
    = Exc (OtherException detail) s
    /\ (plain_word path = true -> no_directive path = true ->
        main os (Line ("cd " ++ path) :: rest) s
        = (OtherException detail, add_stdout s "$ ")).
Proof.
  intros os path more o a e ae s detail rest shown H.
  assert (Hd : forall more' o' a' e' ae' s0,
             cwd s0 = cwd s ->
             dispatch os ("cd" :: path :: more') o' a' e' ae' s0
             = Exc (OtherException detail) s0).
  { intros more' o' a' e' ae' s0 Hc. munfold. fold shown.
    now rewrite Hc, H. }
  split; [now apply Hd|].
  intros Hp Hn. rewrite main_line.
  change ("cd " ++ path) with (join " " ["cd"; path]).
  rewrite loop_body_plain_words;
    [|cbn [forallb]; now rewrite Hp|cbn [forallb]; now rewrite Hn
     |discriminate].
  now rewrite Hd.
Qed.

Lemma unhandled_cd_failure_witness :
  dispatch Worlds.looping ("cd" :: "/loop" :: []) None false None false
           Samples.start
  = Exc (OtherException "Too many levels of symbolic links") Samples.start
  /\ main Worlds.looping [Line ("cd " ++ "/loop"); Line "pwd"] Samples.start
     = (OtherException "Too many levels of symbolic links",
        add_stdout Samples.start "$ ").
Proof.
  destruct (unhandled_cd_failure_ends_session
              Worlds.looping "/loop" [] None false None false Samples.start
              "Too many levels of symbolic links" [Line "pwd"] eq_refl)
    as [H1 H2].
  split; [exact H1|apply H2; reflexivity].
Defined.

End BuiltinsMore.

(** ** Lines with arbitrary spacing *)

Section Spacing.
Import PyStr Shlex Shell Spec Notions Observations.











(** X15.  A line that consists of a redirection only runs nothing: the
    target is not even opened, nothing is printed, and the loop goes on. *)
Theorem redirection_alone_does_nothing : forall os d f st ap rest s,
    directive d = Some (st, ap) ->
    plain_word f = true ->
    main os (Line (d ++ " " ++ f) :: rest) s
    = main os rest (add_stdout s "$ ").
Proof.
  intros os d f st ap rest s Hd Hf. rewrite main_line.
  destruct (directive_well_formed d st ap "'" Hd eq_refl) as [_ Hwd].
  change (d ++ " " ++ f) with (join " " (map render [Bare d; Bare f])).
  rewrite loop_body_words;
    [|cbn [forallb]; now rewrite Hwd; cbn [well_formed]; rewrite Hf
     |discriminate].
  cbn [map content items]. rewrite Hd. cbv zeta.
  cbn [words complaints]. now rewrite add_stderr_empty.
Qed.

Lemma redirection_alone_witness :
  main Samples.bare [Line (">" ++ " " ++ "f"); Line "pwd"] Samples.start
  = main Samples.bare [Line "pwd"] (add_stdout Samples.start "$ ").
Proof.
  apply (redirection_alone_does_nothing
           Samples.bare ">" "f" Out false [Line "pwd"] Samples.start);
    reflexivity.
Defined.

End Spacing.

(** ** External commands, continued *)

Section ExternalMore.
Import PyStr Shlex Shell Spec Notions Observations.

Lemma same_result_bind : forall A B (m m' : M A) (k k' : A -> M B),
    same_result m m' -> (forall a, same_result (k a) (k' a)) ->
    same_result (bind m k) (bind m' k').
Proof.
  intros A B m m' k k' Hm Hk s. unfold bind. rewrite Hm.
  destruct (m' s); [apply Hk|reflexivity].
Qed.

Lemma same_result_try_except : forall A (body body' : M A) handler,
    same_result body body' ->
    same_result (try_except body handler) (try_except body' handler).
Proof. intros A body body' handler H s. unfold try_except. now rewrite H. Qed.

Lemma same_write_to : forall os os' f m text,
    same_but_programs os os' ->
    same_result (write_to os f m text) (write_to os' f m text).
Proof.
  intros os os' f m text (_ & Ha & _ & Ho) s.
  unfold write_to, bind, open. now rewrite Ho, Ha.
Qed.

Lemma same_builtin_output : forall os os' o (a : bool) text,
    same_but_programs os os' ->
    same_result
      (match o with
       | Some f => if truthy o
                   then write_to os f (if a then A else W) (text ++ nl)
                   else print text
       | None => print text
       end)
      (match o with
       | Some f => if truthy o
                   then write_to os' f (if a then A else W) (text ++ nl)
                   else print text
       | None => print text
       end).
Proof.
  intros os os' [f|] a text H; [|intros s; reflexivity].
  destruct (truthy (Some f)); [now apply same_write_to|intros s; reflexivity].
Qed.

Lemma same_os_chdir : forall os os' path,
    same_but_programs os os' ->
    same_result (os_chdir os path) (os_chdir os' path).
Proof.
  intros os os' path (_ & _ & Hc & _) s. unfold os_chdir.
  now rewrite Hc.
Qed.

Lemma same_change_directory : forall os os' path,
    same_but_programs os os' ->
    same_result (change_directory os path) (change_directory os' path).
Proof.
  intros os os' path H. pose proof H as (Hh & Ha & _ & _).
  unfold change_directory, environ_get_HOME. rewrite Hh.
  apply same_result_try_except. apply same_result_bind.
  - intros s. unfold os_path_abspath. now rewrite Ha.
  - intros p. now apply same_os_chdir.
Qed.

(** X20.  The built-ins [echo], [pwd] and [cd] never launch a program,
    never consult the search path and never test whether a file is
    executable: what they do is the same on two systems that differ only
    in those respects. *)
Theorem builtins_never_launch : forall os os' c0 args o a e ae s,
    same_but_programs os os' ->
    str_in c0 ["echo"; "pwd"; "cd"] = true ->
    dispatch os (c0 :: args) o a e ae s = dispatch os' (c0 :: args) o a e ae s.
Proof.
  intros os os' c0 args o a e ae s Hsame H.
  pose proof Hsame as (Hh & _).
  unfold dispatch. unfold bind at 1. cbn [index nth_error ret].
  unfold bind at 1. symmetry.
  unfold bind at 1. cbn [index nth_error ret].
  unfold bind at 1. symmetry.
  match goal with |- context [if ?b then sys_exit 0 else _] => destruct b end;
    [reflexivity|]. cbn [ret].
  unfold str_in in H. cbn [existsb] in H. rewrite orb_false_r in H.
  repeat (apply orb_prop in H; destruct H as [H|H]);
    apply String.eqb_eq in H; subst c0;
    cbn [String.eqb Ascii.eqb Bool.eqb].
  - now apply same_builtin_output.
  - apply same_result_bind; [intros s0; reflexivity|intros d].
    now apply same_builtin_output.
  - destruct (1 <? List.length ("cd" :: args))%nat.
    + apply same_result_bind; [intros s0; reflexivity|intros p].
      now apply same_change_directory.
    + unfold environ_get_HOME. rewrite Hh. now apply same_os_chdir.
Qed.

Lemma builtins_never_launch_witness :
  dispatch Samples.bare ("echo" :: ["ls"]) (Some "f") false None false
           Samples.start
  = dispatch Samples.locked_ls ("echo" :: ["ls"]) (Some "f") false None
             false Samples.start.
Proof.
  apply (builtins_never_launch Samples.bare Samples.locked_ls "echo"
                               ["ls"] (Some "f") false None false
                               Samples.start);
    [repeat split|reflexivity].
Defined.

Lemma run_external_command_completed : forall os argv s out err,
    run os (cwd s) argv = Completed out err ->
    run_external_command os argv None false None false s
    = Val tt (add_stderr (add_stdout s out) err).
Proof.
  intros os argv s out err H. unfold run_external_command, try_except.
  rewrite run_external_try_unredirected by reflexivity.
  cbv beta iota zeta delta
      [bind ret subprocess_run file_write sys_stdout_write sys_stderr_write].
  now rewrite H.
Qed.

(** X21.  When an external program runs to completion on a line without
    redirection, the shell forwards what the program wrote: its standard
    output to the session's standard output, then its standard error to
    the session's standard error; the loop goes on. *)
Theorem external_output_is_forwarded :
  forall os c0 args argv out err rest s,
    forallb plain_word (c0 :: args) = true ->
    forallb no_directive (c0 :: args) = true ->
    str_in c0 BUILTIN_COMMANDS = false ->
    resolve_external os (cwd s) (c0 :: args) = Some argv ->
    run os (cwd s) argv = Completed out err ->
    main os (Line (join " " (c0 :: args)) :: rest) s
    = main os rest
           (mkState (cwd s) (files s) (stdout s ++ "$ " ++ out)
                    (stderr s ++ err)).
Proof.
  intros os c0 args argv out err rest s Hp Hd Hb Hr Hc.
  rewrite main_line, loop_body_plain_words by (assumption || discriminate).
  rewrite dispatch_external by exact Hb.
  rewrite execute_quoted_executable_resolves. cbn [cwd add_stdout].
  rewrite Hr, run_external_command_completed with (out := out) (err := err)
    by exact Hc.
  unfold add_stdout, add_stderr. cbn. now rewrite append_assoc.
Qed.

Lemma external_output_witness :
  main Worlds.builder [Line (join " " ("make" :: ["all"]))] Samples.start
  = main Worlds.builder []
         (mkState "/home/u" [] ("" ++ "$ " ++ ("built" ++ nl))
                  ("" ++ ("warning" ++ nl))).
Proof.
  apply (external_output_is_forwarded
           Worlds.builder "make" ["all"] ["/usr/bin/make"; "all"]
           ("built" ++ nl) ("warning" ++ nl) [] Samples.start);
    reflexivity.
Defined.

(** X22.  With an output target, what an external program writes to its
    standard output goes to the file ([>] replaces the file's content,
    [>>] adds to it) and not to the session; its standard error is still
    forwarded. *)
Theorem external_output_goes_to_target :
  forall os c0 args argv f (ap : bool) out err s,
    str_in c0 BUILTIN_COMMANDS = false ->
    resolve_external os (cwd s) (c0 :: args) = Some argv ->
    run os (cwd s) argv = Completed out err ->
    f <> "" ->
    open_error os (cwd s) f = None ->
    let p := abspath os (cwd s) f in
    exists s',
      dispatch os (c0 :: args) (Some f) ap None false s = Val tt s'
      /\ file_content p (files s')
         = Some ((if ap then old_content p (files s) else "") ++ out)
      /\ (forall p', p' <> p ->
                     file_content p' (files s') = file_content p' (files s))
      /\ cwd s' = cwd s /\ stdout s' = stdout s
      /\ stderr s' = stderr s ++ err.
Proof.
  intros os c0 args argv f ap out err s Hb Hr Hc Hf Ho p.
  rewrite dispatch_external by exact Hb.
  rewrite execute_quoted_executable_resolves, Hr.
  unfold run_external_command, try_except, run_external_try.
  assert (Ht : truthy (Some f) = true).
  { cbn. apply String.eqb_neq in Hf. now rewrite Hf. }
  rewrite Ht.
  cbv beta iota zeta delta
      [bind ret open subprocess_run file_write sys_stdout_write
       sys_stderr_write].
  rewrite Ho. cbn [cwd negb truthy]. rewrite Hc. fold p.
  eexists. split; [reflexivity|].
  cbn [files cwd stdout stderr add_stderr]. repeat split.
  - rewrite !file_content_update_same. unfold old_content.
    destruct ap; [destruct (file_content p (files s))|]; reflexivity.
  - intros p' Hne. now rewrite !file_content_update_other.
Qed.

Lemma external_target_witness :
  exists s',
    dispatch Worlds.builder ("make" :: ["all"]) (Some "log") false None false
             Samples.start
    = Val tt s'
    /\ file_content (abspath Worlds.builder (cwd Samples.start) "log")
                    (files s')
       = Some ((if false
                then old_content
                       (abspath Worlds.builder (cwd Samples.start) "log")
                       (files Samples.start)
                else "") ++ ("built" ++ nl))
    /\ (forall p', p' <> abspath Worlds.builder (cwd Samples.start) "log" ->
                   file_content p' (files s')
                   = file_content p' (files Samples.start))
    /\ cwd s' = cwd Samples.start /\ stdout s' = stdout Samples.start
    /\ stderr s' = stderr Samples.start ++ ("warning" ++ nl).
Proof.
  apply (external_output_goes_to_target
           Worlds.builder "make" ["all"] ["/usr/bin/make"; "all"] "log" false
           ("built" ++ nl) ("warning" ++ nl) Samples.start);
    reflexivity || discriminate.
Defined.

(** X23.  A command that is neither a built-in, nor an executable file by
    its name, nor on the search path is reported as
    [<name>: command not found] on standard error; nothing is launched, no
    redirection target is opened, and the loop goes on. *)
Theorem unknown_command_is_reported :
  forall os c0 args o a e ae rest s,
    str_in c0 BUILTIN_COMMANDS = false ->
    isfile os (cwd s) c0 && access_X_OK os (cwd s) c0 = false ->
    which os (cwd s) c0 = None ->
    dispatch os (c0 :: args) o a e ae s
    = Val tt (add_stderr s (c0 ++ ": command not found" ++ nl))
    /\ (forallb plain_word (c0 :: args) = true ->
        forallb no_directive (c0 :: args) = true ->
        main os (Line (join " " (c0 :: args)) :: rest) s
        = main os rest
               (add_stderr (add_stdout s "$ ")
                           (c0 ++ ": command not found" ++ nl))).
Proof.
  intros os c0 args o a e ae rest s Hb Hd Hw.
  assert (H : forall o' a' e' ae' s0,
             cwd s0 = cwd s ->
             dispatch os (c0 :: args) o' a' e' ae' s0
             = Val tt (add_stderr s0 (c0 ++ ": command not found" ++ nl))).
  { intros o' a' e' ae' s0 Hc. rewrite dispatch_external by exact Hb.
    rewrite execute_quoted_executable_resolves. unfold resolve_external.
    now rewrite Hc, Hd, Hw. }
  split; [now apply H|].
  intros Hp Hn.
  rewrite main_line, loop_body_plain_words by (assumption || discriminate).
  now rewrite H.
Qed.

Lemma unknown_command_witness :
  dispatch Samples.bare ("frobnicate" :: ["x"]) (Some "out") false None false
           Samples.start
  = Val tt (add_stderr Samples.start
              ("frobnicate" ++ ": command not found" ++ nl))
  /\ main Samples.bare [Line (join " " ("frobnicate" :: ["x"]))]
          Samples.start
     = main Samples.bare []
            (add_stderr (add_stdout Samples.start "$ ")
                        ("frobnicate" ++ ": command not found" ++ nl)).
Proof.
  destruct (unknown_command_is_reported
              Samples.bare "frobnicate" ["x"] (Some "out") false None false
              [] Samples.start eq_refl eq_refl eq_refl) as [H1 H2].
  split; [exact H1|apply H2; reflexivity].
Defined.

(** X24.  The output target is opened before the program is launched: when
    the launch then fails, a target given with [>] has been created or
    emptied all the same, and one given with [>>] has been created if it
    did not exist and otherwise keeps its content. *)
Theorem failed_launch_still_opens_target :
  forall os c0 args a0 argv f (ap : bool) k detail s,
    str_in c0 BUILTIN_COMMANDS = false ->
    resolve_external os (cwd s) (c0 :: args) = Some (a0 :: argv) ->
    run os (cwd s) (a0 :: argv) = LaunchFailed k detail ->
    f <> "" ->
    open_error os (cwd s) f = None ->
    let p := abspath os (cwd s) f in
    exists s',
      dispatch os (c0 :: args) (Some f) ap None false s = Val tt s'
      /\ file_content p (files s')
         = Some (if ap then old_content p (files s) else "")
      /\ stdout s' = stdout s
      /\ stderr s' = stderr s ++ diagnostic a0 (os_exn k detail) ++ nl.
Proof.
  intros os c0 args a0 argv f ap k detail s Hb Hr Hl Hf Ho p.
  rewrite dispatch_external by exact Hb.
  rewrite execute_quoted_executable_resolves, Hr.
  assert (Ht : truthy (Some f) = true).
  { cbn. apply String.eqb_neq in Hf. now rewrite Hf. }
  set (s1 := mkState (cwd s)
                     (file_update p (fun old =>
                                       match (if ap then A else W), old with
                                       | A, Some content => content
                                       | _, _ => ""
                                       end) (files s))
                     (stdout s) (stderr s)).
  assert (Htry : run_external_try os (a0 :: argv) (Some f) ap None false s
                 = Exc (os_exn k detail) s1).
  { unfold run_external_try. rewrite Ht.
    cbv beta iota zeta delta [bind ret open subprocess_run].
    rewrite Ho. cbn [cwd]. now rewrite Hl. }
  rewrite (run_external_command_handles _ _ _ _ _ _ _ _ _ _ Htry)
    by (destruct k; reflexivity).
  eexists. split; [reflexivity|].
  cbn [files stdout stderr add_stderr s1]. repeat split.
  rewrite file_content_update_same. unfold old_content.
  destruct ap; [destruct (file_content p (files s))|]; reflexivity.
Qed.

Lemma failed_launch_witness :
  exists s',
    dispatch Samples.locked_ls ["ls"] (Some "f") false None false
             (mkState "/home/u" [("/home/u/f", "precious")] "" "")
    = Val tt s'
    /\ file_content (abspath Samples.locked_ls "/home/u" "f") (files s')
       = Some (if false
               then old_content (abspath Samples.locked_ls "/home/u" "f")
                                [("/home/u/f", "precious")]
               else "")
    /\ stdout s' = ""
    /\ stderr s'
       = "" ++ diagnostic "/bin/ls" (os_exn EACCES "Permission denied") ++ nl.
Proof.
  apply (failed_launch_still_opens_target
           Samples.locked_ls "ls" [] "/bin/ls" [] "f" false EACCES
           "Permission denied"
           (mkState "/home/u" [("/home/u/f", "precious")] "" ""));
    reflexivity || discriminate.
Defined.

End ExternalMore.

(** ** Quoted operators on the session *)

Section QuotedOperators.
Import PyStr Shlex Shell Spec Notions Observations.

(** One operator with its filename among tokens that are not operators. *)
Lemma handle_redirection_one_operator : forall pre post d f st ap s,
    forallb no_directive pre = true ->
    forallb no_directive post = true ->
    directive d = Some (st, ap) ->
    handle_redirection (pre ++ d :: f :: post)%list s
    = (let '(o, oa, e, ea) := single_target st f ap in
       Val ((pre ++ post)%list, o, oa, e, ea) s).
Proof.
  intros pre post d f st ap s Hpre Hpost Hd.
  rewrite handle_redirection_items. cbv zeta.
  destruct (scan_of_words pre) as (P1 & P2 & P3).
  destruct (scan_of_words post) as (Q1 & Q2 & Q3).
  rewrite items_app by (now rewrite items_of_words, P2).
  cbn [items]. rewrite Hd, !items_of_words by assumption.
  rewrite words_app, complaints_app, !last_redirect_app.
  cbn [words complaints last_redirect].
  rewrite P1, P2, Q1, Q2, !P3, !Q3, add_stderr_empty.
  destruct st; reflexivity.
Qed.

(** What [main] does with the line [echo], a quoted operator and a
    filename. *)
Lemma echo_quoted_operator : forall os q d st ap f rest s,
    char_in q quotes = true ->
    directive d = Some (st, ap) ->
    plain_word f = true ->
    open_error os (cwd s) f = None ->
    exists s',
      main os (Line (join " " (map render [Bare "echo"; Quoted q d; Bare f]))
                 :: rest) s
      = main os rest s'
      /\ cwd s' = cwd s /\ stderr s' = stderr s
      /\ match st with
         | Out =>
             stdout s' = stdout s ++ "$ "
             /\ file_content (abspath os (cwd s) f) (files s')
                = Some ((if ap
                         then old_content (abspath os (cwd s) f) (files s)
                         else "") ++ nl)
         | Err => stdout s' = stdout s ++ "$ " ++ nl /\ files s' = files s
         end.
Proof.
  intros os q d st ap f rest s Hq Hd Hf Ho.
  destruct (directive_well_formed d st ap q Hd Hq) as [Hwq _].
  assert (Hne : f <> "").
  { intros ->. discriminate. }
  rewrite main_line, loop_body_words;
    [|cbn [forallb]; rewrite Hwq; cbn [well_formed]; now rewrite Hf
     |discriminate].
  cbn [map content items]. change (directive "echo") with (@None (stream * bool)).
  cbv iota. rewrite Hd. cbv zeta.
  cbn [words complaints last_redirect]. rewrite add_stderr_empty.
  destruct st; cbn [stream_eqb fst snd].
  - rewrite echo_honours_output_redirection by assumption.
    destruct (write_to_effect os f ap (join " " [] ++ nl) (add_stdout s "$ ")
                              Ho)
      as (s' & Hw & Hc & _ & Hcwd & Hout & Herr).
    rewrite Hw. exists s'. split; [reflexivity|].
    split; [exact Hcwd|]. split; [exact Herr|]. split; [exact Hout|exact Hc].
  - exists (add_stdout (add_stdout s "$ ") ("" ++ nl)).
    repeat split. cbn. now rewrite append_assoc.
Qed.

(** C10.  Quoting does not protect a redirection operator.  On a line of
    words, an operator written between single or double quotes is
    tokenized to the same bare token as the operator written without
    quotes; [handle_redirection] therefore receives the same tokens and,
    when the scan reaches that token, treats it as a directive that takes
    the next token as its filename, neither reaching the command; [main]
    does with the quoted line exactly what it does with the unquoted one.
    In particular the line [echo '>' f] writes an empty line to [f] and
    prints nothing but the prompt. *)
Theorem quoted_operator_is_a_directive :
  forall os before after q d st ap,
    forallb well_formed before = true ->
    forallb well_formed after = true ->
    char_in q quotes = true ->
    directive d = Some (st, ap) ->
    let line := join " " (map render (before ++ Quoted q d :: after)%list) in
    let unquoted := join " " (map render (before ++ Bare d :: after)%list) in
    let toks := (map content before ++ d :: map content after)%list in
    split line = inr toks
    /\ split unquoted = inr toks
    /\ (forall s, parse_input line s = Val toks s)
    /\ (forall file rest,
           after = file :: rest ->
           complaints (items (map content before)) = "" ->
           items toks
           = (items (map content before)
                ++ Redirect st ap (content file) :: items (map content rest))
               %list)
    /\ (forall s,
           (command_parts <- parse_input line ;;
            handle_redirection command_parts) s
           = handle_redirection toks s)
    /\ (forall file more s,
           after = file :: more ->
           forallb no_directive (map content before) = true ->
           forallb no_directive (map content more) = true ->
           handle_redirection toks s
           = (let '(o, oa, e, ea) := single_target st (content file) ap in
              Val ((map content before ++ map content more)%list,
                   o, oa, e, ea) s))
    /\ (forall rest s,
           main os (Line line :: rest) s = main os (Line unquoted :: rest) s)
    /\ (forall f rest s,
           before = [Bare "echo"] -> after = [Bare f] ->
           plain_word f = true ->
           open_error os (cwd s) f = None ->
           exists s',
             main os (Line line :: rest) s = main os rest s'
             /\ cwd s' = cwd s /\ stderr s' = stderr s
             /\ match st with
                | Out =>
                    stdout s' = stdout s ++ "$ "
                    /\ file_content (abspath os (cwd s) f) (files s')
                       = Some ((if ap
                                then old_content (abspath os (cwd s) f)
                                                 (files s)
                                else "") ++ nl)
                | Err =>
                    stdout s' = stdout s ++ "$ " ++ nl /\ files s' = files s
                end).
Proof.
  intros os before after q d st ap Hb Ha Hq Hd line unquoted toks.
  destruct (directive_well_formed d st ap q Hd Hq) as [Hwq Hwb].
  assert (Hline : split line = inr toks).
  { subst line toks. rewrite split_words_of_line
      by (now apply forallb_middle).
    now rewrite map_app. }
  assert (Hnil : forall w, (before ++ w :: after)%list <> []).
  { intros w. destruct before; discriminate. }
  split; [exact Hline|]. split.
  { subst unquoted toks. rewrite split_words_of_line
      by (now apply forallb_middle).
    now rewrite map_app. }
  split. { intros s. unfold parse_input. now rewrite Hline. }
  split.
  { intros file rest -> Hc. subst toks.
    rewrite items_app by exact Hc. cbn [map items]. now rewrite Hd. }
  split.
  { intros s. unfold bind, parse_input. now rewrite Hline. }
  split.
  { intros file more s -> Hnb Hnm. subst toks. cbn [map].
    now apply handle_redirection_one_operator. }
  split.
  { intros rest s. subst line unquoted.
    rewrite !main_line, !loop_body_words
      by (try apply Hnil; now apply forallb_middle).
    now rewrite !map_app. }
  intros f rest s -> -> Hf Ho. subst line.
  now apply (echo_quoted_operator os q d st ap f rest s).
Qed.

Lemma quoted_operator_witness :
  split (join " " (map render ([Bare "echo"] ++ Quoted "'" ">" :: [Bare "f"])
                     %list))
  = inr (map content [Bare "echo"] ++ ">" :: map content [Bare "f"])%list
  /\ handle_redirection
       (map content [Bare "echo"] ++ ">" :: map content [Bare "f"])%list
       Samples.start
     = Val (["echo"], Some "f", false, None, false) Samples.start
  /\ main Samples.bare
          [Line (join " " (map render ([Bare "echo"] ++ Quoted "'" ">"
                                         :: [Bare "f"])%list))]
          Samples.start
     = main Samples.bare
            [Line (join " " (map render ([Bare "echo"] ++ Bare ">"
                                           :: [Bare "f"])%list))]
            Samples.start
  /\ exists s',
      main Samples.bare
           [Line (join " " (map render ([Bare "echo"] ++ Quoted "'" ">"
                                          :: [Bare "f"])%list))]
           Samples.start
      = main Samples.bare [] s'
      /\ stdout s' = "" ++ "$ "
      /\ file_content "/home/u/f" (files s') = Some ("" ++ nl).
Proof.
  destruct (quoted_operator_is_a_directive
              Samples.bare [Bare "echo"] [Bare "f"] "'" ">" Out false
              eq_refl eq_refl eq_refl eq_refl)
    as (H1 & _ & _ & _ & _ & H6 & H7 & H8).
  split; [exact H1|]. split.
  { exact (H6 (Bare "f") [] Samples.start eq_refl eq_refl eq_refl). }
  split; [exact (H7 [] Samples.start)|].
  destruct (H8 "f" [] Samples.start eq_refl eq_refl eq_refl eq_refl)
    as (s' & Hm & _ & _ & Hout & Hfile).
  exists s'. split; [exact Hm|]. split; [exact Hout|exact Hfile].
Defined.

End QuotedOperators.
